(** * async.js: callbacks, promise chains and async/await

    A shallow embedding of the teaching script [async.js] together with the
    part of the JavaScript run time it exercises: promises with their
    reaction lists, the microtask queue, operations in flight (file reads,
    one HTTP request), timers, and the console.

    Programs are trees of run-time operations whose continuations are Rocq
    functions; a callback handed to the run time is a tree of the same type.
    The event loop runs one job to completion at a time: the microtask queue
    is drained first, then one operation in flight completes or the earliest
    timer fires.  Which operation completes next is not fixed by the
    language, so the loop takes that choice from a schedule and the theorems
    quantify over schedules. *)

From Stdlib Require Import Strings.String Strings.Ascii Strings.Byte List ZArith Lia Bool.
Import ListNotations.
Local Open Scope Z_scope.

(** ** Strings, buffers and values *)

(** A JavaScript string is a sequence of UTF-16 code units. *)
Definition codeunit := Z.
Definition jsstring := list codeunit.

(** An ASCII literal of the source, as code units. *)
Definition lit (s : String.string) : jsstring :=
  map (fun a => Z.of_N (N_of_ascii a)) (list_ascii_of_string s).

(** String concatenation, the [+] of the source on strings. *)
Definition splus (a b : jsstring) : jsstring := a ++ b.
Infix "+s+" := splus (at level 60, right associativity).

(** A Node [Buffer]. *)
Definition buffer := list byte.

Record jserror := mkError { err_name : jsstring; err_message : jsstring }.

Inductive value :=
| VUndef
| VNull
| VStr (s : jsstring)
| VBuf (b : buffer)
| VErr (e : jserror)
| VObj (body : jsstring)
| VPromise (p : nat).

(** What the script cannot see into: the files on disk, the network and the
    decoder behind [Buffer.prototype.toString].  A read the disk is asked
    for, or a request, that fails reports its error when it completes. *)
Record host := mkHost {
  disk : jsstring -> jserror + buffer;
  http_get : jsstring -> jserror + jsstring;
  buf_toString : buffer -> jsstring
}.

(** A name that holds a NUL is no path: [fs.readFile] refuses it at the
    call, before the disk is asked. *)
Definition has_nul (path : jsstring) : bool := existsb (Z.eqb 0) path.

(** The TypeError (code ERR_INVALID_ARG_VALUE) thrown for such a name.  Its
    message ends with the name received, kept here as it is. *)
Definition invalid_path (path : jsstring) : jserror :=
  mkError (lit "TypeError")
    (lit "The argument 'path' must be a string, Uint8Array, or URL without null bytes. Received "
     +s+ path).

(** What reading [path] comes to: the refusal, or the answer of the disk. *)
Definition fs_read (h : host) (path : jsstring) : jserror + buffer :=
  if has_nul path then inl (invalid_path path) else disk h path.

(** [String.prototype.slice(start, end)]. *)
Definition slice (s : jsstring) (start end_ : Z) : jsstring :=
  let len := Z.of_nat (length s) in
  let from := if start <? 0 then Z.max (len + start) 0 else Z.min start len in
  let to := if end_ <? 0 then Z.max (len + end_) 0 else Z.min end_ len in
  let span := Z.max (to - from) 0 in
  firstn (Z.to_nat span) (skipn (Z.to_nat from) s).

(** [Error.prototype.toString]. *)
Definition error_toString (e : jserror) : jsstring :=
  match err_name e, err_message e with
  | [], m => m
  | n, [] => n
  | n, m => n +s+ lit ": " +s+ m
  end.

(** The abstract operation ToString, used by [+] on a string. *)
Definition ToString (h : host) (v : value) : jsstring :=
  match v with
  | VUndef => lit "undefined"
  | VNull => lit "null"
  | VStr s => s
  | VBuf b => buf_toString h b
  | VErr e => error_toString e
  | VObj _ => lit "[object Object]"
  | VPromise _ => lit "[object Promise]"
  end.

Definition TypeError (m : String.string) : jserror :=
  mkError (lit "TypeError") (lit m).

(** The method call [v.toString()]: there is no such property on
    [undefined] and [null]. *)
Definition toString (h : host) (v : value) : jserror + jsstring :=
  match v with
  | VUndef => inl (TypeError "Cannot read properties of undefined (reading 'toString')")
  | VNull => inl (TypeError "Cannot read properties of null (reading 'toString')")
  | _ => inr (ToString h v)
  end.

(** Truthiness, for [if (err)]. *)
Definition truthy (v : value) : bool :=
  match v with
  | VUndef | VNull => false
  | VStr [] => false
  | _ => true
  end.

(** ** Programs *)

Inductive outcome := Fulfilled (v : value) | Rejected (reason : value).

Inductive prog : Type :=
| Ret (v : value)
| Throw (v : value)
| console_log (args : list value) (k : prog)
| issue_read (path : jsstring) (k : prog)
| queue_read (path : jsstring) (cb : value -> value -> prog) (k : prog)
| axios_get (url : jsstring) (k : nat -> prog)
| setTimeout (cb : prog) (ms : Z) (k : prog)
| new_Promise (executor : nat -> prog) (k : nat -> prog)
| resolve_call (p : nat) (v : value) (k : prog)
| reject_call (p : nat) (v : value) (k : prog)
| then_ (p : nat) (onFulfilled : value -> prog) (k : nat -> prog)
| catch_ (p : nat) (onRejected : value -> prog) (k : nat -> prog)
| await_settled (v : value) (k : outcome -> prog)
| async (body : prog) (k : nat -> prog)
| let_var (init : value) (k : nat -> prog)
| assign (x : nat) (v : value) (k : prog)
| read_var (x : nat) (k : value -> prog)
| enter (fname : String.string) (k : prog).

Declare Scope js_scope.
Delimit Scope js_scope with js.
Bind Scope js_scope with prog.
Notation "x <- m ;; k" := (m (fun x => k))
  (at level 61, m at next level, right associativity, only parsing) : js_scope.
Notation "m ;; k" := (m k)
  (at level 61, right associativity, only parsing) : js_scope.
Local Open Scope js_scope.

(** [fs.readFile(path, cb)]: the call is noted, the name is checked, and
    only then is the read handed over; [cb] gets the error or the data when
    the read completes.  A name holding a NUL makes the call itself throw. *)
Definition fs_readFile (path : jsstring) (cb : value -> value -> prog) (k : prog) : prog :=
  issue_read path
    (if has_nul path then Throw (VErr (invalid_path path)) else queue_read path cb k).

(** [util.promisify(f)]: the call of [f] is made inside the executor of a new
    promise, with a callback that rejects on an error and resolves with the
    data otherwise; a throw of [f] itself rejects the promise. *)
Definition promisify (f : jsstring -> (value -> value -> prog) -> prog -> prog)
    (arg : jsstring) (k : nat -> prog) : prog :=
  new_Promise
    (fun p =>
       f arg
         (fun err data =>
            if truthy err then reject_call p err (Ret VUndef)
            else resolve_call p data (Ret VUndef))
         (Ret VUndef))
    k.

(** [const readFilePromise = require("util").promisify(fs.readFile)] *)
Definition readFilePromise : jsstring -> (nat -> prog) -> prog := promisify fs_readFile.

(** [await e]: resumes with the value, or throws the reason at the await. *)
Definition await (v : value) (k : value -> prog) : prog :=
  await_settled v (fun o => match o with Fulfilled x => k x | Rejected e => Throw e end).

(** An expression that may throw. *)
Definition eval {A} (e : jserror + A) (k : A -> prog) : prog :=
  match e with inl err => Throw (VErr err) | inr a => k a end.

(** Calling a function and going on with what it returns. *)
Fixpoint call (m : prog) (f : value -> prog) : prog :=
  match m with
  | Ret v => f v
  | Throw e => Throw e
  | console_log a k => console_log a (call k f)
  | issue_read p k => issue_read p (call k f)
  | queue_read p cb k => queue_read p cb (call k f)
  | axios_get u k => axios_get u (fun x => call (k x) f)
  | setTimeout cb ms k => setTimeout cb ms (call k f)
  | new_Promise ex k => new_Promise ex (fun x => call (k x) f)
  | resolve_call p v k => resolve_call p v (call k f)
  | reject_call p v k => reject_call p v (call k f)
  | then_ p g k => then_ p g (fun x => call (k x) f)
  | catch_ p g k => catch_ p g (fun x => call (k x) f)
  | await_settled v k => await_settled v (fun o => call (k o) f)
  | async b k => async b (fun x => call (k x) f)
  | let_var i k => let_var i (fun x => call (k x) f)
  | assign x v k => assign x v (call k f)
  | read_var x k => read_var x (fun v => call (k v) f)
  | enter n k => enter n (call k f)
  end.

(** [try { body } catch (err) { handler }] as the whole of a function body:
    a throw on the spine of [body], also after an [await], runs the handler;
    callbacks registered by [body] are not covered. *)
Fixpoint try_catch (body : prog) (handler : value -> prog) : prog :=
  match body with
  | Ret v => Ret v
  | Throw e => handler e
  | console_log a k => console_log a (try_catch k handler)
  | issue_read p k => issue_read p (try_catch k handler)
  | queue_read p cb k => queue_read p cb (try_catch k handler)
  | axios_get u k => axios_get u (fun x => try_catch (k x) handler)
  | setTimeout cb ms k => setTimeout cb ms (try_catch k handler)
  | new_Promise ex k => new_Promise ex (fun x => try_catch (k x) handler)
  | resolve_call p v k => resolve_call p v (try_catch k handler)
  | reject_call p v k => reject_call p v (try_catch k handler)
  | then_ p g k => then_ p g (fun x => try_catch (k x) handler)
  | catch_ p g k => catch_ p g (fun x => try_catch (k x) handler)
  | await_settled v k => await_settled v (fun o => try_catch (k o) handler)
  | async b k => async b (fun x => try_catch (k x) handler)
  | let_var i k => let_var i (fun x => try_catch (k x) handler)
  | assign x v k => assign x v (try_catch k handler)
  | read_var x k => read_var x (fun v => try_catch (k v) handler)
  | enter n k => enter n (try_catch k handler)
  end.

(** ** The run time *)

Inductive pstate := Pending | Locked | Settled (o : outcome).

(** What happens to the value a job ends with. *)
Inductive completion :=
| CMain                (* the top level: kept as the result of the load *)
| CDiscard             (* a plain callback: a throw is an uncaught exception *)
| CSettle (p : nat)    (* a handler or an async body: resolves or rejects p *)
| CExecutor (p : nat)  (* a promise executor: a throw rejects p *)
| CAdopt (p : nat).    (* p follows another promise *)

Definition job := (prog * completion)%type.
Definition reaction := ((outcome -> prog) * completion)%type.

Record promise := mkPromise {
  pst : pstate;
  reactions : list reaction;
  handled : bool
}.


Inductive io :=
| IoRead (path : jsstring) (cb : value -> value -> prog)
| IoHttp (url : jsstring) (p : nat).

Inductive event :=
| Log (args : list value)
| ReadIssued (path : jsstring)   (* fs.readFile was called with this name *)
| HttpIssued (url : jsstring)
| Invoked (fname : String.string)
| Uncaught (reason : value).

Record state := mkState {
  heap : list promise;
  vars : list value;
  microtasks : list job;
  ios : list io;
  timers : list (Z * prog);
  now : Z;
  trace : list (Z * event);
  result : option outcome
}.

Definition init : state := mkState [] [] [] [] [] 0 [] None.

Definition set_heap (f : list promise -> list promise) (st : state) : state :=
  mkState (f (heap st)) (vars st) (microtasks st) (ios st) (timers st) (now st) (trace st) (result st).
Definition set_vars (f : list value -> list value) (st : state) : state :=
  mkState (heap st) (f (vars st)) (microtasks st) (ios st) (timers st) (now st) (trace st) (result st).
Definition set_microtasks (f : list job -> list job) (st : state) : state :=
  mkState (heap st) (vars st) (f (microtasks st)) (ios st) (timers st) (now st) (trace st) (result st).
Definition set_ios (f : list io -> list io) (st : state) : state :=
  mkState (heap st) (vars st) (microtasks st) (f (ios st)) (timers st) (now st) (trace st) (result st).
Definition set_timers (f : list (Z * prog) -> list (Z * prog)) (st : state) : state :=
  mkState (heap st) (vars st) (microtasks st) (ios st) (f (timers st)) (now st) (trace st) (result st).
Definition set_now (t : Z) (st : state) : state :=
  mkState (heap st) (vars st) (microtasks st) (ios st) (timers st) t (trace st) (result st).
Definition set_result (r : option outcome) (st : state) : state :=
  mkState (heap st) (vars st) (microtasks st) (ios st) (timers st) (now st) (trace st) r.
Definition emit (e : event) (st : state) : state :=
  mkState (heap st) (vars st) (microtasks st) (ios st) (timers st) (now st)
          (trace st ++ [(now st, e)]) (result st).

Fixpoint update {A} (i : nat) (f : A -> A) (l : list A) : list A :=
  match l, i with
  | [], _ => []
  | x :: l', O => f x :: l'
  | x :: l', S j => x :: update j f l'
  end.

Fixpoint remove_nth {A} (i : nat) (l : list A) : list A :=
  match l, i with
  | [], _ => []
  | _ :: l', O => l'
  | x :: l', S j => x :: remove_nth j l'
  end.

Definition enqueue (j : job) : state -> state := set_microtasks (fun q => q ++ [j]).

(** A fresh pending promise; its identity is its index in the heap. *)
Definition alloc (st : state) : nat * state :=
  (length (heap st), set_heap (fun hp => hp ++ [mkPromise Pending [] false]) st).

(** Settling runs the reactions registered so far, each as a microtask. *)
Definition settle (p : nat) (o : outcome) (st : state) : state :=
  match nth_error (heap st) p with
  | Some (mkPromise (Settled _) _ _) => st
  | Some (mkPromise _ rs hd) =>
      set_microtasks (fun q => q ++ map (fun r : reaction => (fst r o, snd r)) rs)
        (set_heap (update p (fun _ => mkPromise (Settled o) [] hd)) st)
  | None => st
  end.

(** [p.then]/[await] on [p]: the reaction waits, or is queued at once when
    [p] is already settled. *)
Definition subscribe (p : nat) (r : reaction) (st : state) : state :=
  match nth_error (heap st) p with
  | Some (mkPromise (Settled o) rs _) =>
      enqueue (fst r o, snd r)
        (set_heap (update p (fun _ => mkPromise (Settled o) rs true)) st)
  | Some (mkPromise s rs _) =>
      set_heap (update p (fun _ => mkPromise s (rs ++ [r]) true)) st
  | None => st
  end.

Definition follow (o : outcome) : prog :=
  match o with Fulfilled v => Ret v | Rejected e => Throw e end.

(** The resolve function of a promise: a promise value is followed (a job
    subscribes to it), any other value fulfills. *)
Definition resolve (p : nat) (v : value) (st : state) : state :=
  match nth_error (heap st) p with
  | Some (mkPromise Pending rs hd) =>
      match v with
      | VPromise q =>
          if Nat.eqb q p
          then settle p (Rejected (VErr (TypeError "Chaining cycle detected for promise"))) st
          else enqueue (await_settled (VPromise q) follow, CAdopt p)
                 (set_heap (update p (fun _ => mkPromise Locked rs hd)) st)
      | _ => settle p (Fulfilled v) st
      end
  | _ => st
  end.

Definition reject (p : nat) (e : value) (st : state) : state :=
  match nth_error (heap st) p with
  | Some (mkPromise Pending _ _) => settle p (Rejected e) st
  | _ => st
  end.

(** The end of a job.  An exception nobody caught is recorded in the trace;
    the loop goes on, so that the trace shows everything that was started. *)
Definition complete (c : completion) (o : outcome) (st : state) : state :=
  match c with
  | CMain =>
      set_result (Some o)
        (match o with Rejected e => emit (Uncaught e) st | Fulfilled _ => st end)
  | CDiscard =>
      match o with Rejected e => emit (Uncaught e) st | Fulfilled _ => st end
  | CSettle p =>
      match o with Fulfilled v => resolve p v st | Rejected e => reject p e st end
  | CExecutor p =>
      match o with Fulfilled _ => st | Rejected e => reject p e st end
  | CAdopt p => settle p o st
  end.

(** Runs a job until it returns, throws or suspends at an [await]. *)
Fixpoint exec (m : prog) (c : completion) (st : state) : state :=
  match m with
  | Ret v => complete c (Fulfilled v) st
  | Throw e => complete c (Rejected e) st
  | console_log a k => exec k c (emit (Log a) st)
  | issue_read path k => exec k c (emit (ReadIssued path) st)
  | queue_read path cb k => exec k c (set_ios (fun l => l ++ [IoRead path cb]) st)
  | axios_get url k =>
      let (p, st1) := alloc st in
      exec (k p) c (set_ios (fun l => l ++ [IoHttp url p]) (emit (HttpIssued url) st1))
  | setTimeout cb ms k =>
      exec k c (set_timers (fun l => l ++ [(now st + ms, cb)]) st)
  | new_Promise executor k =>
      let (p, st1) := alloc st in
      exec (k p) c (exec (executor p) (CExecutor p) st1)
  | resolve_call p v k => exec k c (resolve p v st)
  | reject_call p v k => exec k c (reject p v st)
  | then_ p f k =>
      let (q, st1) := alloc st in
      exec (k q) c
        (subscribe p (fun o => match o with Fulfilled v => f v | Rejected e => Throw e end,
                      CSettle q) st1)
  | catch_ p f k =>
      let (q, st1) := alloc st in
      exec (k q) c
        (subscribe p (fun o => match o with Fulfilled v => Ret v | Rejected e => f e end,
                      CSettle q) st1)
  | await_settled v k =>
      match v with
      | VPromise p => subscribe p (k, c) st
      | _ => enqueue (k (Fulfilled v), c) st
      end
  | async body k =>
      let (r, st1) := alloc st in
      exec (k r) c (exec body (CSettle r) st1)
  | let_var i k =>
      exec (k (length (vars st))) c (set_vars (fun l => l ++ [i]) st)
  | assign x v k => exec k c (set_vars (update x (fun _ => v)) st)
  | read_var x k => exec (k (nth x (vars st) VUndef)) c st
  | enter n k => exec k c (emit (Invoked n) st)
  end.

(** The completion of an operation in flight.  Only names that passed the
    check are handed over, so the answer to a read is the disk's. *)
Definition deliver (h : host) (op : io) (st : state) : state :=
  match op with
  | IoRead path cb =>
      match fs_read h path with
      | inl e => exec (cb (VErr e) VUndef) CDiscard st
      | inr b => exec (cb VNull (VBuf b)) CDiscard st
      end
  | IoHttp url p =>
      match http_get h url with
      | inl e => settle p (Rejected (VErr e)) st
      | inr body => settle p (Fulfilled (VObj body)) st
      end
  end.

Fixpoint min_due (l : list (Z * prog)) : option Z :=
  match l with
  | [] => None
  | (d, _) :: l' =>
      match min_due l' with None => Some d | Some m => Some (Z.min d m) end
  end.

Fixpoint take_due (d : Z) (l : list (Z * prog)) : option (prog * list (Z * prog)) :=
  match l with
  | [] => None
  | (d', cb) :: l' =>
      if d' =? d then Some (cb, l')
      else match take_due d l' with
           | Some (cb0, r) => Some (cb0, (d', cb) :: r)
           | None => None
           end
  end.

(** What the loop may do next when no microtask is left: complete any one
    of the operations in flight, or fire the earliest timer. *)
Inductive macro := MIo (i : nat) | MTimer.

Definition candidates (st : state) : list macro :=
  map MIo (seq 0 (length (ios st)))
  ++ match timers st with [] => [] | _ :: _ => [MTimer] end.

Fixpoint choose {A} (l : list A) (pick : nat) : option A :=
  match l with
  | [] => None
  | [x] => Some x
  | x :: l' => match pick with O => Some x | S n => choose l' n end
  end.

Definition fire (h : host) (m : macro) (st : state) : state :=
  match m with
  | MIo i =>
      match nth_error (ios st) i with
      | Some op => deliver h op (set_ios (remove_nth i) st)
      | None => st
      end
  | MTimer =>
      match min_due (timers st) with
      | Some d =>
          match take_due d (timers st) with
          | Some (cb, rest) =>
              exec cb CDiscard (set_now (Z.max (now st) d) (set_timers (fun _ => rest) st))
          | None => st
          end
      | None => st
      end
  end.

(** One turn of the loop.  The clock moves only when a timer fires, to the
    time the timer was due (or stays, if that time has passed). *)
Definition step (h : host) (pick : nat) (st : state) : state :=
  match microtasks st with
  | (m, c) :: rest => exec m c (set_microtasks (fun _ => rest) st)
  | [] =>
      match choose (candidates st) pick with
      | Some m => fire h m st
      | None => st
      end
  end.

Fixpoint run (h : host) (sched : list nat) (st : state) : state :=
  match sched with
  | [] => st
  | pick :: sched' => run h sched' (step h pick st)
  end.

(** Loading a program: its synchronous part runs to the end first. *)
Definition load (m : prog) : state := exec m CMain init.

Definition idle (st : state) : bool :=
  match microtasks st, ios st, timers st with
  | [], [], [] => true
  | _, _, _ => false
  end.

(** ** Observations *)

Definition logs (st : state) : list (list value) :=
  flat_map (fun te => match snd te with Log a => [a] | _ => [] end) (trace st).

Definition timed_logs (st : state) : list (Z * list value) :=
  flat_map (fun te => match snd te with Log a => [(fst te, a)] | _ => [] end) (trace st).

Definition reads (st : state) : list jsstring :=
  flat_map (fun te => match snd te with ReadIssued p => [p] | _ => [] end) (trace st).

Definition requests (st : state) : list jsstring :=
  flat_map (fun te => match snd te with HttpIssued u => [u] | _ => [] end) (trace st).

Definition uncaught (st : state) : list value :=
  flat_map (fun te => match snd te with Uncaught e => [e] | _ => [] end) (trace st).

Definition invocations (f : String.string) (st : state) : nat :=
  length (filter (fun te => match snd te with Invoked g => String.eqb f g | _ => false end)
                 (trace st)).

(** Promises rejected with no reaction ever attached. *)
Definition unhandled (st : state) : list value :=
  flat_map (fun pr => match pst pr, handled pr with
                      | Settled (Rejected e), false => [e]
                      | _, _ => []
                      end) (heap st).

Definition promise_state (p : nat) (st : state) : option pstate :=
  option_map pst (nth_error (heap st) p).

(** ** The script *)

Section Script.

Variable h : host.

(** [const string = data => data.toString().slice(0, -1)] *)
Definition string (data : value) : jserror + jsstring :=
  match toString h data with
  | inl e => inl e
  | inr s => inr (slice s 0 (-1))
  end.

(** A name the script never binds. *)
Definition unbound (name : String.string) : jserror + value :=
  inl (mkError (lit "ReferenceError") (lit name +s+ lit " is not defined")).

(** [p.then(f)] on a value that came back from a call. *)
Definition dot_then (v : value) (f : value -> prog) (k : nat -> prog) : prog :=
  match v with
  | VPromise p => then_ p f k
  | _ => Throw (VErr (TypeError "then is not a function"))
  end.

(** Chapter 1, the read with a callback. *)
Definition chapter1 : prog :=
  fs_readFile (lit "one") (fun err data =>
    if truthy err then
      console_log [VStr (lit "Oops, there was an error:"); err] ;; Ret VUndef
    else
      s <- eval (string data) ;; console_log [VStr s] ;; Ret VUndef) ;;
  Ret VUndef.

(** Chapter 2, the read through a promise kept in a constant. *)
Definition chapter2 : prog :=
  promise <- readFilePromise (lit "one") ;;
  p1 <- then_ promise (fun data =>
          s <- eval (string data) ;; console_log [VStr s] ;; Ret VUndef) ;;
  p2 <- catch_ p1 (fun err =>
          console_log [VStr (lit "Oops, there was an error:"); err] ;; Ret VUndef) ;;
  Ret VUndef.

(** The same statement written in one chain. *)
Definition chapter2_chained : prog :=
  p0 <- readFilePromise (lit "one") ;;
  p1 <- then_ p0 (fun data =>
          s <- eval (string data) ;; console_log [VStr s] ;; Ret VUndef) ;;
  p2 <- catch_ p1 (fun err =>
          console_log [VStr (lit "Oops, there was an error:"); err] ;; Ret VUndef) ;;
  Ret VUndef.

Definition scavengerHuntWithCallbacks (fileName1 : jsstring) : prog :=
  enter "scavengerHuntWithCallbacks" ;;
  fs_readFile fileName1 (fun err data1 =>
    if truthy err then
      console_log [VStr (lit "Oops, there was an error:"); err] ;; Ret VUndef
    else
      fileName2 <- eval (string data1) ;;
      fs_readFile fileName2 (fun err data2 =>
        if truthy err then
          console_log [VStr (lit "Oops, there was an error:"); err] ;; Ret VUndef
        else
          s <- eval (string data2) ;; console_log [VStr s] ;; Ret VUndef) ;;
      Ret VUndef) ;;
  Ret VUndef.

Definition scavengerHuntWithPromiseDotThen (fileName1 : jsstring) : prog :=
  enter "scavengerHuntWithPromiseDotThen" ;;
  p0 <- readFilePromise fileName1 ;;
  p1 <- then_ p0 (fun data1 =>
          f <- eval (string data1) ;; q <- readFilePromise f ;; Ret (VPromise q)) ;;
  p2 <- then_ p1 (fun data2 =>
          s <- eval (string data2) ;; console_log [VStr s] ;; Ret VUndef) ;;
  p3 <- catch_ p2 (fun err =>
          console_log [VStr (lit "Oops, there was an error:"); err] ;; Ret VUndef) ;;
  Ret (VPromise p3).

(** The first declaration of [scavengerHuntWithPromiseAsyncAwait]; the
    second one below has the same name and is the one in force for the
    whole file, since function declarations are hoisted. *)
Definition scavengerHuntWithPromiseAsyncAwait_terse (fileName1 : jsstring) : prog :=
  enter "scavengerHuntWithPromiseAsyncAwait" ;;
  r <- async (try_catch
         (p1 <- readFilePromise fileName1 ;;
          data1 <- await (VPromise p1) ;;
          f <- eval (string data1) ;;
          p2 <- readFilePromise f ;;
          data2 <- await (VPromise p2) ;;
          s <- eval (string data2) ;;
          console_log [VStr s] ;;
          Ret VUndef)
         (fun err =>
            console_log [VStr (lit "Oops, There was an error:"); err] ;; Ret VUndef)) ;;
  Ret (VPromise r).

Definition scavengerHuntWithPromiseAsyncAwait (fileName1 : jsstring) : prog :=
  enter "scavengerHuntWithPromiseAsyncAwait" ;;
  r <- async (try_catch
         (promise1 <- readFilePromise fileName1 ;;
          data1 <- await (VPromise promise1) ;;
          f <- eval (string data1) ;;
          promise2 <- readFilePromise f ;;
          data2 <- await (VPromise promise2) ;;
          s <- eval (string data2) ;;
          console_log [VStr s] ;;
          Ret VUndef)
         (fun err =>
            console_log [VStr (lit "Oops, There was an error:"); err] ;; Ret VUndef)) ;;
  Ret (VPromise r).

Definition logChainWithDotThen (name1 : jsstring) : prog :=
  enter "logChainWithDotThen" ;;
  name2 <- let_var VUndef ;;
  p0 <- readFilePromise name1 ;;
  p1 <- then_ p0 (fun data1 =>
          s <- eval (string data1) ;;
          assign name2 (VStr s) ;;
          f <- eval (string data1) ;;
          q <- readFilePromise f ;;
          Ret (VPromise q)) ;;
  p2 <- then_ p1 (fun data2 =>
          n2 <- read_var name2 ;;
          s2 <- eval (string data2) ;;
          console_log [VStr (name1 +s+ lit "=>" +s+ ToString h n2 +s+ lit "=>" +s+ s2)] ;;
          Ret VUndef) ;;
  p3 <- catch_ p2 (fun err =>
          console_log [VStr (lit "Oops, there was an error:"); err] ;; Ret VUndef) ;;
  Ret (VPromise p3).

Definition logChainWithAwait (name1 : jsstring) : prog :=
  enter "logChainWithAwait" ;;
  r <- async (try_catch
         (p1 <- readFilePromise name1 ;;
          data1 <- await (VPromise p1) ;;
          f <- eval (string data1) ;;
          p2 <- readFilePromise f ;;
          data2 <- await (VPromise p2) ;;
          s1 <- eval (string data1) ;;
          s2 <- eval (string data2) ;;
          console_log [VStr (name1 +s+ lit "=>" +s+ s1 +s+ lit "=>" +s+ s2)] ;;
          Ret VUndef)
         (fun err =>
            console_log [VStr (lit "Oops, There was an error:"); err] ;; Ret VUndef)) ;;
  Ret (VPromise r).

Definition cnn : jsstring := lit "http://www.cnn.com".

Definition getCNN_async_await : prog :=
  enter "getCNN_async_await" ;;
  r <- async
         (console_log [VStr (lit "2in do two things before await")] ;;
          p <- axios_get cnn ;;
          _ <- await (VPromise p) ;;
          console_log [VStr (lit "4in do two things after await")] ;;
          Ret VUndef) ;;
  Ret (VPromise r).

Definition getCNN_dot_then : prog :=
  enter "getCNN_dot_then" ;;
  console_log [VStr (lit "2in do two things before await")] ;;
  p <- axios_get cnn ;;
  q <- then_ p (fun _ =>
         console_log [VStr (lit "4in do two things after await")] ;; Ret VUndef) ;;
  Ret (VPromise q).

Definition waitTwoSecondsWithCallback (callback : prog) : prog :=
  enter "waitTwoSecondsWithCallback" ;;
  setTimeout callback 2000 ;;
  Ret VUndef.

Definition countDownWithCallback : prog :=
  enter "countDownWithCallback" ;;
  _ <- call (waitTwoSecondsWithCallback
    (console_log [VStr (lit "You have six seconds, starting now!!")] ;;
     _ <- call (waitTwoSecondsWithCallback
       (console_log [VStr (lit "You have four seconds left.")] ;;
        _ <- call (waitTwoSecondsWithCallback
          (console_log [VStr (lit "You have just two seconds left. You'd better hurry!!")] ;;
           _ <- call (waitTwoSecondsWithCallback
             (console_log [VStr (lit "That's it!! Time's up!!")] ;;
              Ret VUndef)) ;;
           Ret VUndef)) ;;
        Ret VUndef)) ;;
     Ret VUndef)) ;;
  Ret VUndef.

Definition waitTwoSecondsWithPromise : prog :=
  enter "waitTwoSecondsWithPromise" ;;
  p <- new_Promise (fun p =>
         setTimeout (resolve_call p VUndef (Ret VUndef)) 2000 ;; Ret VUndef) ;;
  Ret (VPromise p).

Definition countDownWithPromiseDotThen : prog :=
  enter "countDownWithPromiseDotThen" ;;
  w <- call waitTwoSecondsWithPromise ;;
  p1 <- dot_then w (fun _ =>
          console_log [VStr (lit "You have six seconds, starting now!!")] ;;
          call waitTwoSecondsWithPromise Ret) ;;
  p2 <- then_ p1 (fun _ =>
          console_log [VStr (lit "You have four seconds left.")] ;;
          call waitTwoSecondsWithPromise Ret) ;;
  p3 <- then_ p2 (fun _ =>
          console_log [VStr (lit "You have just two seconds left. You'd better hurry!!")] ;;
          call waitTwoSecondsWithPromise Ret) ;;
  p4 <- then_ p3 (fun _ =>
          console_log [VStr (lit "That's it! Time's up!!")] ;;
          Ret VUndef) ;;
  Ret VUndef.

Definition countDownWithPromiseAsyncAwait : prog :=
  enter "countDownWithPromiseAsyncAwait" ;;
  r <- async
         (w1 <- call waitTwoSecondsWithPromise ;;
          _ <- await w1 ;;
          console_log [VStr (lit "You have six seconds, starting now!!")] ;;
          w2 <- call waitTwoSecondsWithPromise ;;
          _ <- await w2 ;;
          console_log [VStr (lit "You have four seconds left.")] ;;
          w3 <- call waitTwoSecondsWithPromise ;;
          _ <- await w3 ;;
          console_log [VStr (lit "You have just two seconds left. You'd really better hurry!!")] ;;
          w4 <- call waitTwoSecondsWithPromise ;;
          _ <- await w4 ;;
          console_log [VStr (lit "That's it! Time's up!!")] ;;
          Ret VUndef) ;;
  Ret (VPromise r).

Definition newPromise : prog :=
  enter "newPromise" ;;
  p <- new_Promise (fun p =>
         error <- eval (unbound "error") ;;
         if truthy error then
           reject_call p error ;; Ret VUndef
         else
           w <- eval (unbound "whatShouldBeReturned") ;;
           resolve_call p w ;; Ret VUndef) ;;
  Ret (VPromise p).

(** The statements of the file in order.  Function declarations are hoisted,
    so only the statements that do something at load time appear. *)
Definition script : prog :=
  _ <- call chapter1 ;;
  _ <- call chapter2 ;;
  _ <- call chapter2_chained ;;
  _ <- call (scavengerHuntWithCallbacks (lit "one")) ;;
  _ <- call (scavengerHuntWithPromiseDotThen (lit "one")) ;;
  _ <- call (scavengerHuntWithPromiseAsyncAwait (lit "one")) ;;
  _ <- call (logChainWithDotThen (lit "one")) ;;
  _ <- call (logChainWithAwait (lit "one")) ;;
  console_log [VStr (lit "1before do two things")] ;;
  _ <- call getCNN_async_await ;;
  console_log [VStr (lit "3after do two things")] ;;
  _ <- call countDownWithCallback ;;
  _ <- call countDownWithPromiseDotThen ;;
  _ <- call countDownWithPromiseAsyncAwait ;;
  Ret VUndef.

(** The three numbered statements around the call, on their own. *)
Definition interleaving (getCNN : prog) : prog :=
  console_log [VStr (lit "1before do two things")] ;;
  _ <- call getCNN ;;
  console_log [VStr (lit "3after do two things")] ;;
  Ret VUndef.

End Script.

(** A host for examples: two files, ["one"] naming ["two"], and a network
    that answers. *)
Definition bytes_of (s : String.string) : buffer := list_byte_of_string s.

Definition latin1 (b : buffer) : jsstring := map (fun x => Z.of_N (Byte.to_N x)) b.

Fixpoint jseqb (a b : jsstring) : bool :=
  match a, b with
  | [], [] => true
  | x :: a', y :: b' => (x =? y) && jseqb a' b'
  | _, _ => false
  end.

Definition ENOENT (path : jsstring) : jserror :=
  mkError (lit "Error") (lit "ENOENT: no such file or directory, open " +s+ path).

Definition demo_fs (path : jsstring) : jserror + buffer :=
  if jseqb path (lit "one") then inr (bytes_of "two!")
  else if jseqb path (lit "two") then inr (bytes_of "treasure!")
  else inl (ENOENT path).

Definition demo_host : host :=
  mkHost demo_fs (fun _ => inr (lit "<html>")) latin1.

Definition offline_host : host :=
  mkHost demo_fs (fun _ => inl (mkError (lit "Error") (lit "getaddrinfo ENOTFOUND"))) latin1.

(** A host on which every read and every request fails. *)
Definition broken_host : host :=
  mkHost (fun path => inl (ENOENT path))
         (fun _ => inl (mkError (lit "Error") (lit "getaddrinfo ENOTFOUND"))) latin1.

(** The files of [demo_host] with another last byte in each. *)
Definition twin_fs (path : jsstring) : jserror + buffer :=
  if jseqb path (lit "one") then inr (bytes_of "two?")
  else if jseqb path (lit "two") then inr (bytes_of "treasure.")
  else inl (ENOENT path).

Definition twin_host : host :=
  mkHost twin_fs (fun _ => inr (lit "<html>")) latin1.

Definition round_robin (n : nat) : list nat := repeat O n.

(** A host whose file ["one"] holds the name ["two"] with nothing after it,
    and whose file ["tw"] exists. *)
Definition bare_fs (path : jsstring) : jserror + buffer :=
  if jseqb path (lit "one") then inr (bytes_of "two")
  else if jseqb path (lit "tw") then inr (bytes_of "found!")
  else inl (ENOENT path).

Definition bare_host : host :=
  mkHost bare_fs (fun _ => inr (lit "<html>")) latin1.

(** A host whose file ["one"] holds a name with a NUL in it. *)
Definition nul_fs (path : jsstring) : jserror + buffer :=
  if jseqb path (lit "one") then inr [x61; x00; x62; x21]
  else inl (ENOENT path).

Definition nul_host : host :=
  mkHost nul_fs (fun _ => inr (lit "<html>")) latin1.

(** The three calls that start the countdowns, one after the other as the
    last statements of the file have them. *)
Definition countdowns : prog :=
  _ <- call countDownWithCallback ;;
  _ <- call countDownWithPromiseDotThen ;;
  _ <- call countDownWithPromiseAsyncAwait ;;
  Ret VUndef.

(** Two hunts started one after the other, as the file starts them. *)
Definition two_hunts (h : host) (a b : jsstring) : prog :=
  _ <- call (scavengerHuntWithCallbacks h a) ;;
  _ <- call (scavengerHuntWithCallbacks h b) ;;
  Ret VUndef.

(** ** What a finished run shows *)

(** The text [string] makes of a file's bytes. *)
Definition text (h : host) (d : buffer) : jsstring := slice (buf_toString h d) 0 (-1).

(** The state of the promise a call returned, if it returned one. *)
Definition returned (st : state) : option pstate :=
  match result st with
  | Some (Fulfilled (VPromise p)) => promise_state p st
  | _ => None
  end.

Record observation := mkObs {
  o_logs : list (list value);
  o_reads : list jsstring;
  o_requests : list jsstring;
  o_uncaught : list value;
  o_unhandled : list value;
  o_returned : option pstate;
  o_idle : bool
}.

Definition observe (st : state) : observation :=
  mkObs (logs st) (reads st) (requests st) (uncaught st) (unhandled st) (returned st) (idle st).

(** The two dependent reads of a scavenger hunt, as the host answers them. *)
Definition chain (h : host) (name : jsstring) : jserror + (buffer * buffer) :=
  match fs_read h name with
  | inl e => inl e
  | inr d1 =>
      match fs_read h (text h d1) with
      | inl e => inl e
      | inr d2 => inr (d1, d2)
      end
  end.

Definition chain_reads (h : host) (name : jsstring) : list jsstring :=
  match fs_read h name with
  | inl _ => [name]
  | inr d1 => [name; text h d1]
  end.

(** The error [fs.readFile] throws at one of the two calls of a hunt with
    callbacks, if the name it is given there holds a NUL. *)
Definition refused (h : host) (name : jsstring) : option jserror :=
  if has_nul name then Some (invalid_path name)
  else match fs_read h name with
       | inl _ => None
       | inr d1 =>
           if has_nul (text h d1) then Some (invalid_path (text h d1)) else None
       end.

(** A file as the script can see it: the error, or the trimmed text. *)
Definition seen (h : host) (path : jsstring) : jserror + jsstring :=
  match fs_read h path with
  | inl e => inl e
  | inr d => inr (text h d)
  end.

(** The one line a read prints: the notice with the error, or the text. *)
Definition read_line (prefix : jsstring) (h : host) (name : jsstring) : list value :=
  match seen h name with
  | inl e => [VStr prefix; VErr e]
  | inr s => [VStr s]
  end.

(** The one line a scavenger hunt prints. *)
Definition hunt_line (prefix : jsstring) (h : host) (name : jsstring) : list value :=
  match chain h name with
  | inl e => [VStr prefix; VErr e]
  | inr (_, d2) => [VStr (text h d2)]
  end.

(** The one line a logged chain prints. *)
Definition chain_line (prefix : jsstring) (h : host) (name : jsstring) : list value :=
  match chain h name with
  | inl e => [VStr prefix; VErr e]
  | inr (d1, d2) => [VStr (name +s+ lit "=>" +s+ text h d1 +s+ lit "=>" +s+ text h d2)]
  end.

Definition fulfilled_undefined : option pstate := Some (Settled (Fulfilled VUndef)).

(** ** Jobs that start no request and enter no demonstration *)

Definition demonstrations : list String.string :=
  [ "scavengerHuntWithCallbacks"; "scavengerHuntWithPromiseDotThen";
    "scavengerHuntWithPromiseAsyncAwait"; "logChainWithDotThen"; "logChainWithAwait";
    "getCNN_async_await"; "getCNN_dot_then"; "countDownWithCallback";
    "countDownWithPromiseDotThen"; "countDownWithPromiseAsyncAwait"; "newPromise" ]%string.

(** The demonstrations the file calls. *)
Definition called_once : list String.string :=
  [ "scavengerHuntWithCallbacks"; "scavengerHuntWithPromiseDotThen";
    "scavengerHuntWithPromiseAsyncAwait"; "logChainWithDotThen"; "logChainWithAwait";
    "getCNN_async_await"; "countDownWithCallback";
    "countDownWithPromiseDotThen"; "countDownWithPromiseAsyncAwait" ]%string.

Definition is_demonstration (f : String.string) : bool :=
  existsb (String.eqb f) demonstrations.

Definition noisy (e : event) : bool :=
  match e with
  | HttpIssued _ => true
  | Invoked f => is_demonstration f
  | _ => false
  end.

Definition noise (st : state) : list event :=
  filter noisy (map snd (trace st)).

Inductive quiet : prog -> Prop :=
| quiet_Ret v : quiet (Ret v)
| quiet_Throw v : quiet (Throw v)
| quiet_console_log a k : quiet k -> quiet (console_log a k)
| quiet_issue_read p k : quiet k -> quiet (issue_read p k)
| quiet_queue_read p cb k :
    (forall e d, quiet (cb e d)) -> quiet k -> quiet (queue_read p cb k)
| quiet_setTimeout cb ms k : quiet cb -> quiet k -> quiet (setTimeout cb ms k)
| quiet_new_Promise ex k :
    (forall x, quiet (ex x)) -> (forall x, quiet (k x)) -> quiet (new_Promise ex k)
| quiet_resolve_call p v k : quiet k -> quiet (resolve_call p v k)
| quiet_reject_call p v k : quiet k -> quiet (reject_call p v k)
| quiet_then p f k :
    (forall v, quiet (f v)) -> (forall x, quiet (k x)) -> quiet (then_ p f k)
| quiet_catch p f k :
    (forall v, quiet (f v)) -> (forall x, quiet (k x)) -> quiet (catch_ p f k)
| quiet_await_settled v k : (forall o, quiet (k o)) -> quiet (await_settled v k)
| quiet_async b k : quiet b -> (forall x, quiet (k x)) -> quiet (async b k)
| quiet_let_var i k : (forall x, quiet (k x)) -> quiet (let_var i k)
| quiet_assign x v k : quiet k -> quiet (assign x v k)
| quiet_read_var x k : (forall v, quiet (k v)) -> quiet (read_var x k)
| quiet_enter n k : is_demonstration n = false -> quiet k -> quiet (enter n k).

Definition quiet_io (op : io) : Prop :=
  match op with
  | IoRead _ cb => forall e d, quiet (cb e d)
  | IoHttp _ _ => True
  end.

(** Every job the run time holds is quiet. *)
Record calm (st : state) : Prop := mkCalm {
  calm_microtasks : Forall (fun j : job => quiet (fst j)) (microtasks st);
  calm_heap : Forall (fun pr => Forall (fun r : reaction => forall o, quiet (fst r o))
                                       (reactions pr)) (heap st);
  calm_ios : Forall quiet_io (ios st);
  calm_timers : Forall (fun t : Z * prog => quiet (snd t)) (timers st)
}.

(** A job that may start requests and enter demonstrations while it runs,
    but hands only quiet callbacks to the run time. *)
Inductive tame : prog -> Prop :=
| tame_Ret v : tame (Ret v)
| tame_Throw v : tame (Throw v)
| tame_console_log a k : tame k -> tame (console_log a k)
| tame_issue_read p k : tame k -> tame (issue_read p k)
| tame_queue_read p cb k :
    (forall e d, quiet (cb e d)) -> tame k -> tame (queue_read p cb k)
| tame_axios_get u k : (forall x, tame (k x)) -> tame (axios_get u k)
| tame_setTimeout cb ms k : quiet cb -> tame k -> tame (setTimeout cb ms k)
| tame_new_Promise ex k :
    (forall x, tame (ex x)) -> (forall x, tame (k x)) -> tame (new_Promise ex k)
| tame_resolve_call p v k : tame k -> tame (resolve_call p v k)
| tame_reject_call p v k : tame k -> tame (reject_call p v k)
| tame_then p f k :
    (forall v, quiet (f v)) -> (forall x, tame (k x)) -> tame (then_ p f k)
| tame_catch p f k :
    (forall v, quiet (f v)) -> (forall x, tame (k x)) -> tame (catch_ p f k)
| tame_await_settled v k : (forall o, quiet (k o)) -> tame (await_settled v k)
| tame_async b k : tame b -> (forall x, tame (k x)) -> tame (async b k)
| tame_let_var i k : (forall x, tame (k x)) -> tame (let_var i k)
| tame_assign x v k : tame k -> tame (assign x v k)
| tame_read_var x k : (forall v, tame (k v)) -> tame (read_var x k)
| tame_enter n k : tame k -> tame (enter n k).

(** [st'] holds only quiet jobs if [st] did, and shows the same noise. *)
Definition hushed (st st' : state) : Prop :=
  calm st -> calm st' /\ noise st' = noise st.

(** [st'] has gone on from [st]: its trace continues that of [st]. *)
Definition extends (st st' : state) : Prop :=
  exists l, trace st' = trace st ++ l.

(** ** The helper [string] *)

Lemma slice_drops_last (s : jsstring) : slice s 0 (-1) = removelast s.
Proof.
  unfold slice. cbn [Z.ltb Z.compare].
  rewrite Z.min_l by lia. rewrite Z.sub_0_r. cbn [Z.to_nat skipn].
  rewrite Z.max_l by lia.
  rewrite removelast_firstn_len. f_equal. lia.
Qed.

Lemma string_of_buffer (h : host) (b : buffer) : string h (VBuf b) = inr (text h b).
Proof. reflexivity. Qed.

(** ** Finished runs *)

Lemma run_idle h sched st : idle st = true -> run h sched st = st.
Proof.
  induction sched as [|p sched IH]; intros Hi; [reflexivity|].
  cbn [run]. assert (step h p st = st) as ->; [|auto].
  destruct st as [hp vs mt io tm nw tr rs]. unfold idle in Hi. cbn in Hi.
  destruct mt; [|discriminate]. destruct io; [|discriminate]. destruct tm; [|discriminate].
  reflexivity.
Qed.

Lemma run_cons h p sched st : run h (p :: sched) st = run h sched (step h p st).
Proof. reflexivity. Qed.

Lemma run_nil h st : run h [] st = st.
Proof. reflexivity. Qed.

Lemma run_app h s1 s2 st : run h (s1 ++ s2) st = run h s2 (run h s1 st).
Proof. revert st; induction s1 as [|p s1 IH]; intros st; cbn [run app]; auto. Qed.

(** Once every run of [n] turns has come to rest showing [v], every longer
    schedule shows [v]. *)
Lemma run_settles {A} (f : state -> A) h n sched st v :
  (n <= length sched)%nat ->
  (forall picks, length picks = n ->
     (idle (run h picks st), f (run h picks st)) = (true, v)) ->
  f (run h sched st) = v.
Proof.
  intros Hn Hp.
  rewrite <- (firstn_skipn n sched), run_app.
  assert (Hl : length (firstn n sched) = n) by (rewrite length_firstn; lia).
  specialize (Hp _ Hl). injection Hp as Hi Hv.
  rewrite run_idle; assumption.
Qed.

Lemma fs_read_refuses h path :
  has_nul path = true -> fs_read h path = inl (invalid_path path).
Proof. intros H. unfold fs_read. rewrite H. reflexivity. Qed.

Lemma fs_read_data_has_no_nul h path d : fs_read h path = inr d -> has_nul path = false.
Proof. unfold fs_read. destruct (has_nul path); [discriminate | reflexivity]. Qed.

Ltac js_eval :=
  cbv beta iota zeta delta
    -[lit slice splus fs_read http_get buf_toString run cnn has_nul invalid_path].

(** Uses what is known of the host's answers and of the names. *)
Ltac js_known :=
  match goal with
  | |- context [has_nul (lit ?s)] =>
      let b := eval vm_compute in (has_nul (lit s)) in
      change (has_nul (lit s)) with b
  | |- context [has_nul ?x] =>
      match goal with H : has_nul x = _ |- _ => rewrite H end
  | |- context [fs_read ?h ?x] =>
      match goal with H : fs_read h x = _ |- _ => rewrite H end
  | |- context [http_get ?h ?x] =>
      match goal with H : http_get h x = _ |- _ => rewrite H end
  end.

(** As [js_eval], but the jobs are only brought in shape, not yet run: the
    names they pass to [fs.readFile] come to light before anything depends
    on whether such a name is refused. *)
Ltac js_prog :=
  cbv beta iota zeta delta
    -[lit slice splus fs_read http_get buf_toString run cnn has_nul invalid_path exec].

Ltac js_settle :=
  js_prog; repeat (js_known; js_prog); js_eval.

(** Turns a list of known length into its elements. *)
Ltac explicit picks Hn :=
  destruct picks as [|? picks]; cbn [length] in Hn;
  [ try discriminate Hn
  | first [ discriminate Hn | apply Nat.succ_inj in Hn; explicit picks Hn ] ].

(** Evaluates a run turn by turn, using what is known of the host's answers
    as they are asked for. *)
Ltac js_run :=
  js_settle; repeat (rewrite run_cons; js_settle); try rewrite run_nil; reflexivity.

Ltac js_finish n Hl :=
  match goal with |- ?f (run _ _ _) = _ => apply (run_settles f _ n); [exact Hl|] end;
  let picks := fresh "picks" in
  let Hn := fresh "Hn" in
  intros picks Hn; explicit picks Hn; js_run.

(** The answers to one read, and to a read followed by the read of the name
    it yields: a refusal, an error of the disk, or the data. *)
Ltac js_one_read h name :=
  unfold text in *;
  destruct (fs_read h name) as [?e|?d1] eqn:?H1.

Ltac js_second_read h d :=
  destruct (has_nul (slice (buf_toString h d) 0 (-1))) eqn:?Hn2;
  [ match goal with
    | Hn : has_nul (slice (buf_toString h d) 0 (-1)) = true |- _ =>
        pose proof (fs_read_refuses h _ Hn)
    end
  | destruct (fs_read h (slice (buf_toString h d) 0 (-1))) as [?e|?d2] eqn:?H2 ].

Ltac js_two_reads h name :=
  unfold text in *;
  destruct (has_nul name) eqn:?Hn1;
  [ match goal with
    | Hn : has_nul name = true |- _ => pose proof (fs_read_refuses h _ Hn)
    end
  | destruct (fs_read h name) as [?e|?d1] eqn:?H1;
    [ | match goal with
        | H : fs_read h name = inr ?d |- _ => js_second_read h d
        end ] ].

Section Runs.

Variable h : host.

Lemma chapter1_run sched :
  (1 <= length sched)%nat ->
  observe (run h sched (load (chapter1 h))) =
  mkObs [read_line (lit "Oops, there was an error:") h (lit "one")]
        [lit "one"] [] [] [] None true.
Proof.
  intros Hl. unfold read_line, seen. js_one_read h (lit "one"); js_finish 1%nat Hl.
Qed.

Lemma chapter2_run sched :
  (4 <= length sched)%nat ->
  observe (run h sched (load (chapter2 h))) =
  mkObs [read_line (lit "Oops, there was an error:") h (lit "one")]
        [lit "one"] [] [] [] None true.
Proof.
  intros Hl. unfold read_line, seen. js_one_read h (lit "one"); js_finish 4%nat Hl.
Qed.

Lemma chapter2_chained_run sched :
  (4 <= length sched)%nat ->
  observe (run h sched (load (chapter2_chained h))) =
  mkObs [read_line (lit "Oops, there was an error:") h (lit "one")]
        [lit "one"] [] [] [] None true.
Proof.
  intros Hl. unfold read_line, seen. js_one_read h (lit "one"); js_finish 4%nat Hl.
Qed.

(** The hunt with callbacks: when [fs.readFile] refuses a name, at the
    first call or at the one inside the callback, the throw is caught by
    nothing and no line is printed; otherwise the hunt prints its line. *)
Lemma scavengerHuntWithCallbacks_run name sched :
  (2 <= length sched)%nat ->
  observe (run h sched (load (scavengerHuntWithCallbacks h name))) =
  match refused h name with
  | Some e => mkObs [] (chain_reads h name) [] [VErr e] [] None true
  | None =>
      mkObs [hunt_line (lit "Oops, there was an error:") h name]
            (chain_reads h name) [] [] [] None true
  end.
Proof.
  intros Hl. unfold refused, hunt_line, chain, chain_reads.
  js_two_reads h name; js_finish 2%nat Hl.
Qed.

Lemma scavengerHuntWithPromiseDotThen_run name sched :
  (9 <= length sched)%nat ->
  observe (run h sched (load (scavengerHuntWithPromiseDotThen h name))) =
  mkObs [hunt_line (lit "Oops, there was an error:") h name]
        (chain_reads h name) [] [] [] fulfilled_undefined true.
Proof.
  intros Hl. unfold hunt_line, chain, chain_reads.
  js_two_reads h name; js_finish 9%nat Hl.
Qed.

Lemma scavengerHuntWithPromiseAsyncAwait_run name sched :
  (9 <= length sched)%nat ->
  observe (run h sched (load (scavengerHuntWithPromiseAsyncAwait h name))) =
  mkObs [hunt_line (lit "Oops, There was an error:") h name]
        (chain_reads h name) [] [] [] fulfilled_undefined true.
Proof.
  intros Hl. unfold hunt_line, chain, chain_reads.
  js_two_reads h name; js_finish 9%nat Hl.
Qed.

Lemma logChainWithDotThen_run name1 sched :
  (9 <= length sched)%nat ->
  observe (run h sched (load (logChainWithDotThen h name1))) =
  mkObs [chain_line (lit "Oops, there was an error:") h name1]
        (chain_reads h name1) [] [] [] fulfilled_undefined true.
Proof.
  intros Hl. unfold chain_line, chain, chain_reads.
  js_two_reads h name1; js_finish 9%nat Hl.
Qed.

Lemma logChainWithAwait_run name1 sched :
  (9 <= length sched)%nat ->
  observe (run h sched (load (logChainWithAwait h name1))) =
  mkObs [chain_line (lit "Oops, There was an error:") h name1]
        (chain_reads h name1) [] [] [] fulfilled_undefined true.
Proof.
  intros Hl. unfold chain_line, chain, chain_reads.
  js_two_reads h name1; js_finish 9%nat Hl.
Qed.

Lemma getCNN_async_await_run sched :
  (2 <= length sched)%nat ->
  observe (run h sched (load getCNN_async_await)) =
  match http_get h cnn with
  | inr _ =>
      mkObs [[VStr (lit "2in do two things before await")];
             [VStr (lit "4in do two things after await")]]
            [] [cnn] [] [] fulfilled_undefined true
  | inl e =>
      mkObs [[VStr (lit "2in do two things before await")]]
            [] [cnn] [] [VErr e] (Some (Settled (Rejected (VErr e)))) true
  end.
Proof.
  intros Hl. destruct (http_get h cnn) as [e|body] eqn:Hnet; js_finish 2%nat Hl.
Qed.

Lemma interleaving_async_await_run sched :
  (2 <= length sched)%nat ->
  logs (run h sched (load (interleaving getCNN_async_await))) =
  [ [VStr (lit "1before do two things")];
    [VStr (lit "2in do two things before await")];
    [VStr (lit "3after do two things")] ]
  ++ match http_get h cnn with
     | inr _ => [[VStr (lit "4in do two things after await")]]
     | inl _ => []
     end.
Proof.
  intros Hl. destruct (http_get h cnn) as [e|body] eqn:Hnet; js_finish 2%nat Hl.
Qed.

Lemma interleaving_dot_then_run sched :
  (2 <= length sched)%nat ->
  logs (run h sched (load (interleaving getCNN_dot_then))) =
  [ [VStr (lit "1before do two things")];
    [VStr (lit "2in do two things before await")];
    [VStr (lit "3after do two things")] ]
  ++ match http_get h cnn with
     | inr _ => [[VStr (lit "4in do two things after await")]]
     | inl _ => []
     end.
Proof.
  intros Hl. destruct (http_get h cnn) as [e|body] eqn:Hnet; js_finish 2%nat Hl.
Qed.

Lemma countDownWithCallback_run sched :
  (4 <= length sched)%nat ->
  timed_logs (run h sched (load countDownWithCallback)) =
  [ (2000, [VStr (lit "You have six seconds, starting now!!")]);
    (4000, [VStr (lit "You have four seconds left.")]);
    (6000, [VStr (lit "You have just two seconds left. You'd better hurry!!")]);
    (8000, [VStr (lit "That's it!! Time's up!!")]) ].
Proof. intros Hl. js_finish 4%nat Hl. Qed.

Lemma countDownWithPromiseDotThen_run sched :
  (16 <= length sched)%nat ->
  timed_logs (run h sched (load countDownWithPromiseDotThen)) =
  [ (2000, [VStr (lit "You have six seconds, starting now!!")]);
    (4000, [VStr (lit "You have four seconds left.")]);
    (6000, [VStr (lit "You have just two seconds left. You'd better hurry!!")]);
    (8000, [VStr (lit "That's it! Time's up!!")]) ].
Proof. intros Hl. js_finish 16%nat Hl. Qed.

Lemma countDownWithPromiseAsyncAwait_run sched :
  (8 <= length sched)%nat ->
  timed_logs (run h sched (load countDownWithPromiseAsyncAwait)) =
  [ (2000, [VStr (lit "You have six seconds, starting now!!")]);
    (4000, [VStr (lit "You have four seconds left.")]);
    (6000, [VStr (lit "You have just two seconds left. You'd really better hurry!!")]);
    (8000, [VStr (lit "That's it! Time's up!!")]) ].
Proof. intros Hl. js_finish 8%nat Hl. Qed.

End Runs.

(** ** What every job leaves in place *)

Lemma Forall_update {A} (P : A -> Prop) i f (l : list A) :
  Forall P l -> (forall x, P x -> P (f x)) -> Forall P (update i f l).
Proof.
  intros Hl Hf. revert i.
  induction Hl as [|x l Hx Hl IH]; intros [|i]; cbn [update]; auto.
Qed.

Lemma Forall_remove_nth {A} (P : A -> Prop) i (l : list A) :
  Forall P l -> Forall P (remove_nth i l).
Proof.
  intros Hl. revert i.
  induction Hl as [|x l Hx Hl IH]; intros [|i]; cbn [remove_nth]; auto.
Qed.

Lemma Forall_nth_error {A} (P : A -> Prop) i (l : list A) x :
  Forall P l -> nth_error l i = Some x -> P x.
Proof.
  intros Hl Hi. rewrite Forall_forall in Hl. eauto using nth_error_In.
Qed.

Lemma take_due_Forall (Q : prog -> Prop) d l cb rest :
  Forall (fun t : Z * prog => Q (snd t)) l ->
  take_due d l = Some (cb, rest) ->
  Q cb /\ Forall (fun t : Z * prog => Q (snd t)) rest.
Proof.
  intros Hl. revert cb rest.
  induction Hl as [|[d' c] l Hx Hl IH]; intros cb rest; cbn [take_due]; [discriminate|].
  destruct (d' =? d).
  - intros [= <- <-]. auto.
  - destruct (take_due d l) as [[cb0 r]|]; [|discriminate].
    intros [= <- <-]. destruct (IH _ _ eq_refl). auto.
Qed.

Section Primitives.

Variables (p : nat) (st : state).

Lemma trace_settle o : trace (settle p o st) = trace st.
Proof.
  unfold settle. destruct (nth_error (heap st) p) as [[[| |?] ? ?]|]; reflexivity.
Qed.

Lemma trace_subscribe r : trace (subscribe p r st) = trace st.
Proof.
  unfold subscribe. destruct (nth_error (heap st) p) as [[[| |?] ? ?]|]; reflexivity.
Qed.

Lemma trace_reject e : trace (reject p e st) = trace st.
Proof.
  unfold reject.
  destruct (nth_error (heap st) p) as [[[| |?] ? ?]|]; try reflexivity.
  apply trace_settle.
Qed.

Lemma trace_resolve v : trace (resolve p v st) = trace st.
Proof.
  unfold resolve.
  destruct (nth_error (heap st) p) as [[[| |?] ? ?]|]; try reflexivity.
  destruct v; try apply trace_settle.
  destruct (Nat.eqb _ _); [apply trace_settle | reflexivity].
Qed.

Hypothesis Hcalm : calm st.

Lemma calm_emit e : calm (emit e st).
Proof. destruct Hcalm; constructor; assumption. Qed.

Lemma calm_enqueue j : quiet (fst j) -> calm (enqueue j st).
Proof.
  intros Hj. destruct Hcalm; constructor; cbn; try assumption.
  apply Forall_app; auto.
Qed.

Lemma calm_alloc : calm (snd (alloc st)).
Proof.
  destruct Hcalm; constructor; cbn; try assumption.
  apply Forall_app; split; [assumption|]. repeat constructor.
Qed.

Lemma calm_settle o : calm (settle p o st).
Proof.
  unfold settle. destruct (nth_error (heap st) p) as [[s rs hd]|] eqn:Hp; [|assumption].
  assert (Hrs : Forall (fun r : reaction => forall o, quiet (fst r o)) rs)
    by (exact (Forall_nth_error _ _ _ _ (calm_heap _ Hcalm) Hp)).
  assert (calm (set_microtasks
                  (fun q => q ++ map (fun r : reaction => (fst r o, snd r)) rs)
                  (set_heap (update p (fun _ => mkPromise (Settled o) [] hd)) st))).
  { destruct Hcalm; constructor; cbn; try assumption.
    - apply Forall_app; split; [assumption|].
      apply Forall_map. revert Hrs. apply Forall_impl. intros r Hr. apply Hr.
    - apply Forall_update; [assumption|]. intros; cbn; constructor. }
  destruct s; assumption.
Qed.

Lemma calm_subscribe r : (forall o, quiet (fst r o)) -> calm (subscribe p r st).
Proof.
  intros Hr. unfold subscribe.
  destruct (nth_error (heap st) p) as [[s rs hd]|] eqn:Hp; [|assumption].
  assert (Hrs : Forall (fun r : reaction => forall o, quiet (fst r o)) rs)
    by (exact (Forall_nth_error _ _ _ _ (calm_heap _ Hcalm) Hp)).
  assert (forall s', calm (set_heap (update p (fun _ => mkPromise s' (rs ++ [r]) true)) st)).
  { intros s'. destruct Hcalm; constructor; cbn; try assumption.
    apply Forall_update; [assumption|]. intros; cbn.
    apply Forall_app; split; [assumption|]. constructor; auto. }
  destruct s as [| |o]; auto.
  destruct Hcalm; constructor; cbn; try assumption.
  - apply Forall_app; split; [assumption|]. constructor; [apply Hr|constructor].
  - apply Forall_update; [assumption|]. intros; cbn; assumption.
Qed.

Lemma calm_reject e : calm (reject p e st).
Proof.
  unfold reject.
  destruct (nth_error (heap st) p) as [[[| |?] ? ?]|]; try assumption.
  apply calm_settle.
Qed.

End Primitives.

Lemma quiet_follow o : quiet (follow o).
Proof. destruct o; constructor. Qed.

Lemma calm_resolve p v st : calm st -> calm (resolve p v st).
Proof.
  intros Hcalm. unfold resolve.
  destruct (nth_error (heap st) p) as [[[| |?] rs hd]|] eqn:Hp; try assumption.
  assert (Hrs : Forall (fun r : reaction => forall o, quiet (fst r o)) rs)
    by (exact (Forall_nth_error _ _ _ _ (calm_heap _ Hcalm) Hp)).
  destruct v; try (apply calm_settle; assumption).
  destruct (Nat.eqb _ _); [apply calm_settle; assumption|].
  apply calm_enqueue.
  - destruct Hcalm; constructor; cbn; try assumption.
    apply Forall_update; [assumption|]. intros; cbn; assumption.
  - cbn. constructor. apply quiet_follow.
Qed.

Lemma noise_emit e st :
  noise (emit e st) = noise st ++ (if noisy e then [e] else []).
Proof.
  unfold noise, emit. cbn. rewrite map_app, filter_app. cbn.
  destruct (noisy e); reflexivity.
Qed.

Lemma noise_same st st' : trace st' = trace st -> noise st' = noise st.
Proof. unfold noise. intros ->. reflexivity. Qed.

Lemma complete_quiet c o st :
  calm st -> calm (complete c o st) /\ noise (complete c o st) = noise st.
Proof.
  intros Hcalm.
  destruct c, o; cbn [complete]; split;
    try assumption; try reflexivity;
    try (apply calm_resolve; assumption);
    try (apply calm_reject; assumption);
    try (apply calm_settle; assumption);
    try (apply noise_same; first [apply trace_resolve | apply trace_reject | apply trace_settle]).
  - destruct Hcalm; constructor; assumption.
  - destruct Hcalm; constructor; assumption.
  - change (noise (emit (Uncaught reason) st) = noise st).
    rewrite noise_emit. apply app_nil_r.
  - apply calm_emit; assumption.
  - rewrite noise_emit. apply app_nil_r.
Qed.

Lemma hushed_refl st : hushed st st.
Proof. intros H; auto. Qed.

Lemma hushed_trans st1 st2 st3 : hushed st1 st2 -> hushed st2 st3 -> hushed st1 st3.
Proof.
  intros H12 H23 H1. destruct (H12 H1) as [H2 N2]. destruct (H23 H2) as [H3 N3].
  split; [assumption | congruence].
Qed.

Lemma hushed_same st st' : (calm st -> calm st') -> trace st' = trace st -> hushed st st'.
Proof. intros Hc Ht H. split; [auto | apply noise_same; assumption]. Qed.

Lemma hushed_complete c o st : hushed st (complete c o st).
Proof. intros H. apply complete_quiet; assumption. Qed.

Lemma hushed_emit e st : noisy e = false -> hushed st (emit e st).
Proof.
  intros He H. split; [apply calm_emit; assumption|].
  rewrite noise_emit, He. apply app_nil_r.
Qed.

Lemma hushed_alloc st : hushed st (snd (alloc st)).
Proof. apply hushed_same; [apply calm_alloc | reflexivity]. Qed.

Lemma hushed_subscribe p r st :
  (forall o, quiet (fst r o)) -> hushed st (subscribe p r st).
Proof.
  intros Hr. apply hushed_same; [|apply trace_subscribe].
  intros H. apply calm_subscribe; assumption.
Qed.

Lemma hushed_enqueue j st : quiet (fst j) -> hushed st (enqueue j st).
Proof.
  intros Hj. apply hushed_same; [|reflexivity].
  intros H. apply calm_enqueue; assumption.
Qed.

Lemma hushed_settle p o st : hushed st (settle p o st).
Proof.
  apply hushed_same; [|apply trace_settle].
  intros H. apply calm_settle; assumption.
Qed.

Lemma hushed_resolve p v st : hushed st (resolve p v st).
Proof. apply hushed_same; [apply calm_resolve | apply trace_resolve]. Qed.

Lemma hushed_reject p e st : hushed st (reject p e st).
Proof.
  apply hushed_same; [|apply trace_reject].
  intros H. apply calm_reject; assumption.
Qed.

Lemma hushed_add_io op st : quiet_io op -> hushed st (set_ios (fun l => l ++ [op]) st).
Proof.
  intros Hop. apply hushed_same; [|reflexivity].
  intros []; constructor; cbn; try assumption.
  apply Forall_app; auto.
Qed.

Lemma hushed_add_timer t st :
  quiet (snd t) -> hushed st (set_timers (fun l => l ++ [t]) st).
Proof.
  intros Ht. apply hushed_same; [|reflexivity].
  intros []; constructor; cbn; try assumption.
  apply Forall_app; auto.
Qed.

Lemma hushed_set_vars f st : hushed st (set_vars f st).
Proof. apply hushed_same; [|reflexivity]. intros []; constructor; assumption. Qed.

Ltac hush := eapply hushed_trans; [|solve [eauto]].

(** A quiet job starts no request and enters no demonstration, and leaves
    only quiet jobs behind. *)
Lemma exec_quiet m : quiet m -> forall c st, hushed st (exec m c st).
Proof.
  induction 1; intros c st; cbn [exec alloc].
  - apply hushed_complete.
  - apply hushed_complete.
  - hush. apply hushed_emit; reflexivity.
  - hush. apply hushed_emit; reflexivity.
  - hush. apply hushed_add_io; cbn; assumption.
  - hush. apply hushed_add_timer. assumption.
  - hush. eapply hushed_trans; [apply hushed_alloc|]. eauto.
  - hush. apply hushed_resolve.
  - hush. apply hushed_reject.
  - hush. eapply hushed_trans; [apply hushed_alloc|].
    apply hushed_subscribe. intros [v|e]; cbn; [auto | constructor].
  - hush. eapply hushed_trans; [apply hushed_alloc|].
    apply hushed_subscribe. intros [v|e]; cbn; [constructor | auto].
  - destruct v; try (apply hushed_enqueue; cbn; auto).
    apply hushed_subscribe. cbn. assumption.
  - hush. eapply hushed_trans; [apply hushed_alloc|]. eauto.
  - hush. apply hushed_set_vars.
  - hush. apply hushed_set_vars.
  - eauto.
  - hush. apply hushed_emit. cbn. assumption.
Qed.

Lemma deliver_quiet h op st : quiet_io op -> hushed st (deliver h op st).
Proof.
  intros Hop. destruct op as [path cb|url p]; cbn [deliver].
  - destruct (fs_read h path); apply exec_quiet; apply Hop.
  - destruct (http_get h url); apply hushed_settle.
Qed.

Lemma step_quiet h pick st : hushed st (step h pick st).
Proof.
  intros Hcalm. unfold step.
  destruct (microtasks st) as [|[m c] rest] eqn:Hq.
  - destruct (choose (candidates st) pick) as [[i|]|]; cbn [fire]; auto.
    + destruct (nth_error (ios st) i) as [op|] eqn:Hop; auto.
      refine (deliver_quiet h op (set_ios (remove_nth i) st) _ _).
      * exact (Forall_nth_error _ _ _ _ (calm_ios _ Hcalm) Hop).
      * destruct Hcalm; constructor; cbn; try assumption.
        apply Forall_remove_nth; assumption.
    + destruct (min_due (timers st)) as [d|]; auto.
      destruct (take_due d (timers st)) as [[cb rest]|] eqn:Ht; auto.
      destruct (take_due_Forall _ _ _ _ _ (calm_timers _ Hcalm) Ht) as [Hcb Hrest].
      refine (exec_quiet cb Hcb CDiscard
                (set_now (Z.max (now st) d) (set_timers (fun _ => rest) st)) _).
      destruct Hcalm; constructor; cbn; assumption.
  - pose proof (calm_microtasks _ Hcalm) as Hm. rewrite Hq in Hm.
    inversion Hm as [|j js Hj Hjs]; subst.
    refine (exec_quiet m Hj c (set_microtasks (fun _ => rest) st) _).
    destruct Hcalm; constructor; cbn; assumption.
Qed.

Lemma run_quiet h sched st : hushed st (run h sched st).
Proof.
  revert st. induction sched as [|pick sched IH]; intros st; cbn [run].
  - apply hushed_refl.
  - eapply hushed_trans; [apply step_quiet | apply IH].
Qed.

(** ** Nothing printed is taken back *)

Lemma extends_refl st : extends st st.
Proof. exists []. symmetry. apply app_nil_r. Qed.

Lemma extends_trans st1 st2 st3 : extends st1 st2 -> extends st2 st3 -> extends st1 st3.
Proof.
  intros [l1 H1] [l2 H2]. exists (l1 ++ l2). rewrite H2, H1. symmetry. apply app_assoc.
Qed.

Lemma extends_same st st' : trace st' = trace st -> extends st st'.
Proof. intros H. exists []. rewrite H. symmetry. apply app_nil_r. Qed.

Lemma extends_emit e st : extends st (emit e st).
Proof. eexists. reflexivity. Qed.

Lemma extends_complete c o st : extends st (complete c o st).
Proof.
  destruct c, o; cbn [complete];
    first [ apply extends_refl
          | apply extends_emit
          | apply extends_same;
            first [reflexivity | apply trace_resolve | apply trace_reject | apply trace_settle]
          | (eexists; reflexivity) ].
Qed.

Ltac ext := eapply extends_trans; [|solve [eauto]].
Ltac same := apply extends_same; reflexivity.

Lemma exec_extends m : forall c st, extends st (exec m c st).
Proof.
  induction m; intros c st; cbn [exec alloc]; try apply extends_complete.
  - ext. apply extends_emit.
  - ext. apply extends_emit.
  - ext. same.
  - ext. eexists. reflexivity.
  - ext. same.
  - ext. eapply extends_trans; [|eauto]. same.
  - ext. apply extends_same, trace_resolve.
  - ext. apply extends_same, trace_reject.
  - ext. apply extends_same. rewrite trace_subscribe. reflexivity.
  - ext. apply extends_same. rewrite trace_subscribe. reflexivity.
  - destruct v; try same. apply extends_same, trace_subscribe.
  - ext. eapply extends_trans; [|eauto]. same.
  - ext. same.
  - ext. same.
  - eauto.
  - ext. apply extends_emit.
Qed.

Lemma step_extends h pick st : extends st (step h pick st).
Proof.
  unfold step. destruct (microtasks st) as [|[m c] rest].
  - destruct (choose (candidates st) pick) as [[i|]|]; cbn [fire]; try apply extends_refl.
    + destruct (nth_error (ios st) i) as [[path cb|url p]|]; cbn [deliver];
        try apply extends_refl.
      * destruct (fs_read h path);
          (eapply extends_trans; [|apply exec_extends]); same.
      * destruct (http_get h url); apply extends_same; rewrite trace_settle; reflexivity.
    + destruct (min_due (timers st)) as [d|]; try apply extends_refl.
      destruct (take_due d (timers st)) as [[cb rest]|]; try apply extends_refl.
      eapply extends_trans; [|apply exec_extends]. same.
  - eapply extends_trans; [|apply exec_extends]. same.
Qed.

Lemma run_extends h sched st : extends st (run h sched st).
Proof.
  revert st. induction sched as [|pick sched IH]; intros st; cbn [run].
  - apply extends_refl.
  - eapply extends_trans; [apply step_extends | apply IH].
Qed.

(** ** The jobs the script leaves behind *)

Lemma quiet_call m f : quiet m -> (forall v, quiet (f v)) -> quiet (call m f).
Proof. intros Hm Hf. induction Hm; cbn [call]; try constructor; auto. Qed.

Lemma quiet_try_catch body handler :
  quiet body -> (forall e, quiet (handler e)) -> quiet (try_catch body handler).
Proof. intros Hb Hh. induction Hb; cbn [try_catch]; try constructor; auto. Qed.

Lemma quiet_tame m : quiet m -> tame m.
Proof. induction 1; constructor; auto. Qed.

Lemma tame_try_catch body handler :
  tame body -> (forall e, quiet (handler e)) -> tame (try_catch body handler).
Proof.
  intros Hb Hh. induction Hb; cbn [try_catch]; try constructor; auto.
  - apply quiet_tame, Hh.
  - intros o. apply quiet_try_catch; auto.
Qed.

Lemma calm_of_hushed st st' : hushed st st' -> calm st -> calm st'.
Proof. intros H Hc. apply H, Hc. Qed.

Ltac calmly lem := eapply calm_of_hushed; [apply lem|].

(** A tame job leaves only quiet jobs behind. *)
Lemma exec_tame m : tame m -> forall c st, calm st -> calm (exec m c st).
Proof.
  induction 1; intros c st Hc; cbn [exec alloc].
  - apply complete_quiet, Hc.
  - apply complete_quiet, Hc.
  - auto using calm_emit.
  - auto using calm_emit.
  - apply IHtame. calmly hushed_add_io; [cbn; assumption|]. exact Hc.
  - apply H0. calmly hushed_add_io; [exact I|]. apply calm_emit. apply calm_alloc, Hc.
  - apply IHtame. calmly hushed_add_timer; [assumption|]. exact Hc.
  - apply H2. apply H0. apply calm_alloc, Hc.
  - apply IHtame. apply calm_resolve, Hc.
  - apply IHtame. apply calm_reject, Hc.
  - apply H1. apply calm_subscribe; [apply calm_alloc, Hc|].
    intros [v|e]; cbn; [auto | constructor].
  - apply H1. apply calm_subscribe; [apply calm_alloc, Hc|].
    intros [v|e]; cbn; [constructor | auto].
  - destruct v; try (apply calm_enqueue; cbn; auto).
    apply calm_subscribe; cbn; auto.
  - apply H1. apply IHtame. apply calm_alloc, Hc.
  - apply H0. calmly hushed_set_vars. exact Hc.
  - apply IHtame. calmly hushed_set_vars. exact Hc.
  - auto.
  - apply IHtame. apply calm_emit, Hc.
Qed.

Lemma calm_init : calm init.
Proof. constructor; constructor. Qed.

Ltac unfold_script :=
  unfold script, interleaving, chapter1, chapter2, chapter2_chained,
    scavengerHuntWithCallbacks, scavengerHuntWithPromiseDotThen,
    scavengerHuntWithPromiseAsyncAwait, logChainWithDotThen, logChainWithAwait,
    getCNN_async_await, getCNN_dot_then, countDownWithCallback,
    countDownWithPromiseDotThen, countDownWithPromiseAsyncAwait,
    waitTwoSecondsWithCallback, waitTwoSecondsWithPromise,
    readFilePromise, promisify, fs_readFile.

Ltac nul_literals :=
  repeat match goal with
         | |- context [has_nul (lit ?s)] =>
             let b := eval vm_compute in (has_nul (lit s)) in
             change (has_nul (lit s)) with b
         end.

Ltac tame_step :=
  match goal with
  | |- forall _, _ => intro
  | |- _ = false => reflexivity
  | |- tame (try_catch _ _) => apply tame_try_catch
  | |- quiet (try_catch _ _) => apply quiet_try_catch
  | |- quiet (call _ _) => apply quiet_call
  | |- quiet (await _ _) => unfold await
  | |- quiet (eval _ _) => unfold eval
  | |- quiet (dot_then _ _ _) => unfold dot_then
  | |- tame (await _ _) => unfold await
  | |- tame (eval _ _) => unfold eval
  | |- tame (dot_then _ _ _) => unfold dot_then
  | |- quiet (match ?x with _ => _ end) => destruct x
  | |- tame (match ?x with _ => _ end) => destruct x
  | |- quiet _ => constructor
  | |- tame _ => constructor
  end.

Lemma script_tame h : tame (script h).
Proof. unfold_script. nul_literals. cbn [call]. repeat tame_step. Qed.

Lemma script_load_calm h : calm (load (script h)).
Proof. apply exec_tame; [apply script_tame | apply calm_init]. Qed.

(** ** The whole file, on every schedule *)

Lemma requests_noise st :
  requests st =
  flat_map (fun e => match e with HttpIssued u => [u] | _ => [] end) (noise st).
Proof.
  unfold requests, noise.
  induction (trace st) as [|[t e] l IH]; [reflexivity|].
  cbn [flat_map map filter snd]. rewrite IH.
  destruct e; cbn [noisy]; try reflexivity.
  destruct (is_demonstration fname); reflexivity.
Qed.

Lemma invocations_noise f st :
  is_demonstration f = true ->
  invocations f st =
  length (filter (fun e => match e with Invoked g => String.eqb f g | _ => false end)
                 (noise st)).
Proof.
  intros Hf. unfold invocations, noise.
  induction (trace st) as [|[t e] l IH]; [reflexivity|].
  cbn [filter map snd]. destruct e; cbn [noisy]; try exact IH.
  destruct (String.eqb f fname) eqn:Heq.
  - apply String.eqb_eq in Heq. subst fname. rewrite Hf.
    cbn [filter length]. rewrite String.eqb_refl. cbn [length]. f_equal. exact IH.
  - destruct (is_demonstration fname); cbn [filter]; [rewrite Heq|]; exact IH.
Qed.

Lemma script_noise h sched :
  noise (run h sched (load (script h))) = noise (load (script h)).
Proof. apply run_quiet, script_load_calm. Qed.

Lemma logs_extends st st' : extends st st' -> exists rest, logs st' = logs st ++ rest.
Proof.
  intros [l Hl]. unfold logs. rewrite Hl, flat_map_app. eexists. reflexivity.
Qed.

(** C3: the synchronous block of the file prints exactly the markers 1, 2 and
    3, in source order; on every schedule whatever is printed later, marker 4
    included, comes after them; and in the demonstration on its own, in either
    notation, marker 4 is printed last once the request has been answered
    (and never when it fails). *)
Theorem markers_in_order h sched :
  (2 <= length sched)%nat ->
  logs (load (script h)) =
    [ [VStr (lit "1before do two things")];
      [VStr (lit "2in do two things before await")];
      [VStr (lit "3after do two things")] ]
  /\ (forall any, exists later,
        logs (run h any (load (script h))) =
        [ [VStr (lit "1before do two things")];
          [VStr (lit "2in do two things before await")];
          [VStr (lit "3after do two things")] ] ++ later)
  /\ logs (run h sched (load (interleaving getCNN_async_await))) =
     [ [VStr (lit "1before do two things")];
       [VStr (lit "2in do two things before await")];
       [VStr (lit "3after do two things")] ]
     ++ match http_get h cnn with
        | inr _ => [[VStr (lit "4in do two things after await")]]
        | inl _ => []
        end
  /\ logs (run h sched (load (interleaving getCNN_dot_then))) =
     logs (run h sched (load (interleaving getCNN_async_await))).
Proof.
  intros Hl.
  assert (Hsync : logs (load (script h)) =
    [ [VStr (lit "1before do two things")];
      [VStr (lit "2in do two things before await")];
      [VStr (lit "3after do two things")] ]) by (vm_compute; reflexivity).
  split; [exact Hsync|]. split.
  - intros any. rewrite <- Hsync. apply logs_extends, run_extends.
  - rewrite interleaving_dot_then_run, interleaving_async_await_run by assumption.
    split; reflexivity.
Qed.

Lemma markers_in_order_witness :
  logs (run demo_host (round_robin 2) (load (interleaving getCNN_async_await))) =
  [ [VStr (lit "1before do two things")];
    [VStr (lit "2in do two things before await")];
    [VStr (lit "3after do two things")];
    [VStr (lit "4in do two things after await")] ].
Proof.
  exact (proj1 (proj2 (proj2 (markers_in_order demo_host (round_robin 2) (le_n 2))))).
Defined.

(** C7: on every host and every schedule, loading the script issues exactly
    one network request, to http://www.cnn.com. *)
Theorem one_request_to_cnn h sched :
  requests (run h sched (load (script h))) = [lit "http://www.cnn.com"].
Proof.
  rewrite requests_noise, script_noise. vm_compute. reflexivity.
Qed.

(** C8, as the script has it: on every host and every schedule each of the
    nine demonstrations the file calls is invoked exactly once, and
    getCNN_dot_then and newPromise, which are only declared, are never
    invoked. *)
Theorem called_demonstrations_run_once h sched :
  Forall (fun f => invocations f (run h sched (load (script h))) = 1%nat) called_once
  /\ invocations "getCNN_dot_then" (run h sched (load (script h))) = 0%nat
  /\ invocations "newPromise" (run h sched (load (script h))) = 0%nat.
Proof.
  assert (Hall : forall f n,
             is_demonstration f = true ->
             length (filter (fun e => match e with
                                      | Invoked g => String.eqb f g
                                      | _ => false
                                      end) (noise (load (script h)))) = n ->
             invocations f (run h sched (load (script h))) = n).
  { intros f n Hf Hn. rewrite invocations_noise, script_noise; assumption. }
  split; [|split].
  - unfold called_once. repeat constructor; apply Hall; vm_compute; reflexivity.
  - apply Hall; vm_compute; reflexivity.
  - apply Hall; vm_compute; reflexivity.
Qed.

(** C8 as stated fails: getCNN_dot_then is a demonstration function of the
    script and loading the script does not invoke it. *)
Lemma not_every_demonstration_is_invoked :
  ~ (forall f, In f demonstrations ->
       invocations f (run demo_host (round_robin 200) (load (script demo_host))) = 1%nat).
Proof.
  intros H. specialize (H "getCNN_dot_then"%string).
  assert (Hin : In "getCNN_dot_then"%string demonstrations)
    by (unfold demonstrations; cbn; tauto).
  specialize (H Hin). vm_compute in H. discriminate H.
Qed.

(** ** The scavenger hunts *)

Lemma chain_ok h name d1 d2 :
  fs_read h name = inr d1 -> fs_read h (text h d1) = inr d2 ->
  chain h name = inr (d1, d2).
Proof. intros H1 H2. unfold chain. rewrite H1, H2. reflexivity. Qed.

Lemma refused_none h name d1 d2 :
  fs_read h name = inr d1 -> fs_read h (text h d1) = inr d2 -> refused h name = None.
Proof.
  intros H1 H2. unfold refused.
  rewrite (fs_read_data_has_no_nul _ _ _ H1), H1, (fs_read_data_has_no_nul _ _ _ H2).
  reflexivity.
Qed.



(** The two declarations of scavengerHuntWithPromiseAsyncAwait are the same
    program, so it does not matter which of them a call reaches. *)
Lemma scavengerHuntWithPromiseAsyncAwait_redeclared h fileName1 :
  scavengerHuntWithPromiseAsyncAwait_terse h fileName1 =
  scavengerHuntWithPromiseAsyncAwait h fileName1.
Proof. reflexivity. Qed.

(** C1: when the first file, trimmed, names a second file whose trimmed
    content is C, each of the three scavenger hunts prints the one line C. *)
Theorem scavenger_hunts_print_the_same h fileName1 d1 d2 s1 s2 s3 :
  fs_read h fileName1 = inr d1 ->
  fs_read h (text h d1) = inr d2 ->
  (2 <= length s1)%nat -> (9 <= length s2)%nat -> (9 <= length s3)%nat ->
  logs (run h s1 (load (scavengerHuntWithCallbacks h fileName1))) = [[VStr (text h d2)]]
  /\ logs (run h s2 (load (scavengerHuntWithPromiseDotThen h fileName1))) = [[VStr (text h d2)]]
  /\ logs (run h s3 (load (scavengerHuntWithPromiseAsyncAwait h fileName1))) = [[VStr (text h d2)]].
Proof.
  intros H1 H2 L1 L2 L3.
  pose proof (f_equal o_logs (scavengerHuntWithCallbacks_run h fileName1 s1 L1)) as E1.
  pose proof (f_equal o_logs (scavengerHuntWithPromiseDotThen_run h fileName1 s2 L2)) as E2.
  pose proof (f_equal o_logs (scavengerHuntWithPromiseAsyncAwait_run h fileName1 s3 L3)) as E3.
  rewrite (refused_none h fileName1 d1 d2 H1 H2) in E1.
  cbn [o_logs observe] in E1, E2, E3. unfold hunt_line in E1, E2, E3.
  rewrite (chain_ok h fileName1 d1 d2 H1 H2) in E1, E2, E3.
  auto.
Qed.

Lemma scavenger_hunts_print_the_same_witness :
  logs (run demo_host (round_robin 2)
          (load (scavengerHuntWithCallbacks demo_host (lit "one")))) = [[VStr (lit "treasure")]]
  /\ logs (run demo_host (round_robin 9)
            (load (scavengerHuntWithPromiseDotThen demo_host (lit "one")))) = [[VStr (lit "treasure")]]
  /\ logs (run demo_host (round_robin 9)
            (load (scavengerHuntWithPromiseAsyncAwait demo_host (lit "one")))) = [[VStr (lit "treasure")]].
Proof.
  exact (scavenger_hunts_print_the_same demo_host (lit "one")
           (bytes_of "two!") (bytes_of "treasure!")
           (round_robin 2) (round_robin 9) (round_robin 9)
           eq_refl eq_refl (le_n 2) (le_n 9) (le_n 9)).
Defined.



(** C9: on a valid two-level chain logChainWithDotThen and logChainWithAwait
    print the same single line: the first name, the trimmed content of the
    first file and the trimmed content of the second, joined by "=>". *)
Theorem log_chains_print_the_same h name1 d1 d2 s1 s2 :
  fs_read h name1 = inr d1 ->
  fs_read h (text h d1) = inr d2 ->
  (9 <= length s1)%nat -> (9 <= length s2)%nat ->
  logs (run h s1 (load (logChainWithDotThen h name1))) =
    [[VStr (name1 +s+ lit "=>" +s+ text h d1 +s+ lit "=>" +s+ text h d2)]]
  /\ logs (run h s2 (load (logChainWithAwait h name1))) =
    [[VStr (name1 +s+ lit "=>" +s+ text h d1 +s+ lit "=>" +s+ text h d2)]].
Proof.
  intros H1 H2 L1 L2.
  pose proof (f_equal o_logs (logChainWithDotThen_run h name1 s1 L1)) as E1.
  pose proof (f_equal o_logs (logChainWithAwait_run h name1 s2 L2)) as E2.
  cbn [o_logs observe] in E1, E2. unfold chain_line in E1, E2.
  rewrite (chain_ok h name1 d1 d2 H1 H2) in E1, E2.
  auto.
Qed.

Lemma log_chains_print_the_same_witness :
  logs (run demo_host (round_robin 9) (load (logChainWithDotThen demo_host (lit "one")))) =
    [[VStr (lit "one=>two=>treasure")]]
  /\ logs (run demo_host (round_robin 9) (load (logChainWithAwait demo_host (lit "one")))) =
    [[VStr (lit "one=>two=>treasure")]].
Proof.
  exact (log_chains_print_the_same demo_host (lit "one")
           (bytes_of "two!") (bytes_of "treasure!") (round_robin 9) (round_robin 9)
           eq_refl eq_refl (le_n 9) (le_n 9)).
Defined.

Lemma observe_logs st obs : observe st = obs -> logs st = o_logs obs.
Proof. intros <-. reflexivity. Qed.

(** What a hunt or a logged chain prints is a function of the files as seen
    through [string]. *)
Lemma hunt_line_seen prefix h name :
  hunt_line prefix h name =
  match seen h name with
  | inl e => [VStr prefix; VErr e]
  | inr s1 =>
      match seen h s1 with
      | inl e => [VStr prefix; VErr e]
      | inr s2 => [VStr s2]
      end
  end.
Proof.
  unfold hunt_line, chain, seen. destruct (fs_read h name) as [e|d1]; [reflexivity|].
  destruct (fs_read h (text h d1)); reflexivity.
Qed.

Lemma chain_line_seen prefix h name :
  chain_line prefix h name =
  match seen h name with
  | inl e => [VStr prefix; VErr e]
  | inr s1 =>
      match seen h s1 with
      | inl e => [VStr prefix; VErr e]
      | inr s2 => [VStr (name +s+ lit "=>" +s+ s1 +s+ lit "=>" +s+ s2)]
      end
  end.
Proof.
  unfold chain_line, chain, seen. destruct (fs_read h name) as [e|d1]; [reflexivity|].
  destruct (fs_read h (text h d1)); reflexivity.
Qed.

Lemma refused_seen h name :
  refused h name =
  if has_nul name then Some (invalid_path name)
  else match seen h name with
       | inl _ => None
       | inr s1 => if has_nul s1 then Some (invalid_path s1) else None
       end.
Proof. unfold refused, seen. destruct (fs_read h name); reflexivity. Qed.

(** C6: on a buffer, [string] returns the decoded text without its final
    character; and what the file-reading statements and functions print
    depends on the files only through [string]: two hosts whose files look
    the same after [string] produce the same console lines. *)
Theorem string_trims_and_is_the_only_way_to_print h h' name b sched :
  (forall path, seen h path = seen h' path) ->
  (9 <= length sched)%nat ->
  string h (VBuf b) = inr (removelast (buf_toString h b))
  /\ (forall s c, buf_toString h b = s ++ [c] -> string h (VBuf b) = inr s)
  /\ logs (run h sched (load (chapter1 h))) = logs (run h' sched (load (chapter1 h')))
  /\ logs (run h sched (load (chapter2 h))) = logs (run h' sched (load (chapter2 h')))
  /\ logs (run h sched (load (chapter2_chained h))) =
     logs (run h' sched (load (chapter2_chained h')))
  /\ logs (run h sched (load (scavengerHuntWithCallbacks h name))) =
     logs (run h' sched (load (scavengerHuntWithCallbacks h' name)))
  /\ logs (run h sched (load (scavengerHuntWithPromiseDotThen h name))) =
     logs (run h' sched (load (scavengerHuntWithPromiseDotThen h' name)))
  /\ logs (run h sched (load (scavengerHuntWithPromiseAsyncAwait h name))) =
     logs (run h' sched (load (scavengerHuntWithPromiseAsyncAwait h' name)))
  /\ logs (run h sched (load (logChainWithDotThen h name))) =
     logs (run h' sched (load (logChainWithDotThen h' name)))
  /\ logs (run h sched (load (logChainWithAwait h name))) =
     logs (run h' sched (load (logChainWithAwait h' name))).
Proof.
  intros Hseen Hl.
  assert (Htrim : string h (VBuf b) = inr (removelast (buf_toString h b))).
  { rewrite string_of_buffer. unfold text. rewrite slice_drops_last. reflexivity. }
  split; [exact Htrim|]. split.
  { intros s c Hs. rewrite Htrim, Hs, removelast_last. reflexivity. }
  assert (L1 : (1 <= length sched)%nat) by lia.
  assert (L2 : (2 <= length sched)%nat) by lia.
  assert (L4 : (4 <= length sched)%nat) by lia.
  assert (Hread : forall prefix, read_line prefix h (lit "one") = read_line prefix h' (lit "one")).
  { intros prefix. unfold read_line. rewrite Hseen. reflexivity. }
  assert (Hhunt : forall prefix, hunt_line prefix h name = hunt_line prefix h' name).
  { intros prefix. rewrite !hunt_line_seen, Hseen.
    destruct (seen h' name) as [e|s1]; [reflexivity|]. rewrite Hseen. reflexivity. }
  assert (Hchain : forall prefix, chain_line prefix h name = chain_line prefix h' name).
  { intros prefix. rewrite !chain_line_seen, Hseen.
    destruct (seen h' name) as [e|s1]; [reflexivity|]. rewrite Hseen. reflexivity. }
  repeat split.
  - rewrite (observe_logs _ _ (chapter1_run h sched L1)),
            (observe_logs _ _ (chapter1_run h' sched L1)).
    cbn [o_logs]. rewrite Hread. reflexivity.
  - rewrite (observe_logs _ _ (chapter2_run h sched L4)),
            (observe_logs _ _ (chapter2_run h' sched L4)).
    cbn [o_logs]. rewrite Hread. reflexivity.
  - rewrite (observe_logs _ _ (chapter2_chained_run h sched L4)),
            (observe_logs _ _ (chapter2_chained_run h' sched L4)).
    cbn [o_logs]. rewrite Hread. reflexivity.
  - rewrite (observe_logs _ _ (scavengerHuntWithCallbacks_run h name sched L2)),
            (observe_logs _ _ (scavengerHuntWithCallbacks_run h' name sched L2)).
    rewrite !refused_seen, Hseen, Hhunt.
    destruct (has_nul name); [reflexivity|].
    destruct (seen h' name) as [e|s1]; [reflexivity|].
    destruct (has_nul s1); reflexivity.
  - rewrite (observe_logs _ _ (scavengerHuntWithPromiseDotThen_run h name sched Hl)),
            (observe_logs _ _ (scavengerHuntWithPromiseDotThen_run h' name sched Hl)).
    cbn [o_logs]. rewrite Hhunt. reflexivity.
  - rewrite (observe_logs _ _ (scavengerHuntWithPromiseAsyncAwait_run h name sched Hl)),
            (observe_logs _ _ (scavengerHuntWithPromiseAsyncAwait_run h' name sched Hl)).
    cbn [o_logs]. rewrite Hhunt. reflexivity.
  - rewrite (observe_logs _ _ (logChainWithDotThen_run h name sched Hl)),
            (observe_logs _ _ (logChainWithDotThen_run h' name sched Hl)).
    cbn [o_logs]. rewrite Hchain. reflexivity.
  - rewrite (observe_logs _ _ (logChainWithAwait_run h name sched Hl)),
            (observe_logs _ _ (logChainWithAwait_run h' name sched Hl)).
    cbn [o_logs]. rewrite Hchain. reflexivity.
Qed.

Lemma twin_host_looks_the_same path : seen demo_host path = seen twin_host path.
Proof.
  unfold seen, fs_read. cbn [disk demo_host twin_host]. unfold demo_fs, twin_fs.
  destruct (has_nul path); [reflexivity|].
  destruct (jseqb path (lit "one")); [reflexivity|].
  destruct (jseqb path (lit "two")); reflexivity.
Defined.

Lemma string_trims_and_is_the_only_way_to_print_witness :
  string demo_host (VBuf (bytes_of "two!")) = inr (lit "two")
  /\ logs (run demo_host (round_robin 9)
            (load (scavengerHuntWithCallbacks demo_host (lit "one")))) =
     logs (run twin_host (round_robin 9)
            (load (scavengerHuntWithCallbacks twin_host (lit "one")))).
Proof.
  pose proof (string_trims_and_is_the_only_way_to_print demo_host twin_host (lit "one")
                (bytes_of "two!") (round_robin 9) twin_host_looks_the_same (le_n 9)) as H.
  split; [exact (proj1 H) | exact (proj1 (proj2 (proj2 (proj2 (proj2 (proj2 H))))))].
Defined.

(** ** The promise scavengerHuntWithPromiseDotThen returns *)

Ltac js_either :=
  js_settle; repeat (rewrite run_cons; js_settle); try rewrite run_nil;
  first [left; reflexivity | right; reflexivity].

(** At every moment of every run the returned promise is pending or
    fulfilled with undefined. *)
Lemma scavengerHuntWithPromiseDotThen_returned h fileName1 sched :
  returned (run h sched (load (scavengerHuntWithPromiseDotThen h fileName1))) = Some Pending
  \/ returned (run h sched (load (scavengerHuntWithPromiseDotThen h fileName1))) =
     fulfilled_undefined.
Proof.
  destruct (Nat.le_gt_cases 9 (length sched)) as [Hl|Hl].
  - right. exact (f_equal o_returned (scavengerHuntWithPromiseDotThen_run h fileName1 sched Hl)).
  - js_two_reads h fileName1;
      do 9 (destruct sched as [|? sched]; [js_either|]); cbn in Hl; lia.
Qed.

(** C10: whatever the host answers, the promise
    scavengerHuntWithPromiseDotThen returns is, at every moment of every
    run, pending or fulfilled with undefined, so it is never rejected; and
    once the run has had nine turns it is fulfilled with undefined, also
    when a read has failed and the trailing .catch has taken the error. *)
Theorem scavengerHuntWithPromiseDotThen_always_fulfills h fileName1 any sched :
  (9 <= length sched)%nat ->
  (returned (run h any (load (scavengerHuntWithPromiseDotThen h fileName1))) = Some Pending
   \/ returned (run h any (load (scavengerHuntWithPromiseDotThen h fileName1))) =
      Some (Settled (Fulfilled VUndef)))
  /\ (forall reason,
        returned (run h any (load (scavengerHuntWithPromiseDotThen h fileName1))) <>
        Some (Settled (Rejected reason)))
  /\ returned (run h sched (load (scavengerHuntWithPromiseDotThen h fileName1))) =
     Some (Settled (Fulfilled VUndef)).
Proof.
  intros Hl.
  pose proof (scavengerHuntWithPromiseDotThen_returned h fileName1 any) as Hany.
  split; [exact Hany|]. split.
  - intros reason. destruct Hany as [-> | ->]; discriminate.
  - exact (f_equal o_returned (scavengerHuntWithPromiseDotThen_run h fileName1 sched Hl)).
Qed.

Lemma scavengerHuntWithPromiseDotThen_always_fulfills_witness :
  returned (run broken_host (round_robin 9)
              (load (scavengerHuntWithPromiseDotThen broken_host (lit "one")))) =
  Some (Settled (Fulfilled VUndef)).
Proof.
  exact (proj2 (proj2 (scavengerHuntWithPromiseDotThen_always_fulfills broken_host (lit "one")
                  [] (round_robin 9) (le_n 9)))).
Defined.

(** ** Failures *)

(** C4, as the script has it: in the statements and functions that read
    files, a read failure that reaches the code, through the callback or
    as a rejection, is caught at the enclosing callback, .catch or try/catch
    and ends in exactly one notice made of a fixed prefix and the error; no
    read is issued again, no exception is left uncaught and no promise is
    left rejected without a handler.  For the functions built on
    readFilePromise this covers every failure of either read, a refused
    name included; for scavengerHuntWithCallbacks it covers every failure
    the disk reports. *)
Theorem read_failures_are_caught_and_printed h name e sched :
  (9 <= length sched)%nat ->
  (fs_read h (lit "one") = inl e ->
     observe (run h sched (load (chapter1 h))) =
       mkObs [[VStr (lit "Oops, there was an error:"); VErr e]] [lit "one"] [] [] [] None true
     /\ observe (run h sched (load (chapter2 h))) =
       mkObs [[VStr (lit "Oops, there was an error:"); VErr e]] [lit "one"] [] [] [] None true
     /\ observe (run h sched (load (chapter2_chained h))) =
       mkObs [[VStr (lit "Oops, there was an error:"); VErr e]] [lit "one"] [] [] [] None true)
  /\ (chain h name = inl e -> refused h name = None ->
      observe (run h sched (load (scavengerHuntWithCallbacks h name))) =
        mkObs [[VStr (lit "Oops, there was an error:"); VErr e]]
              (chain_reads h name) [] [] [] None true)
  /\ (chain h name = inl e ->
      observe (run h sched (load (scavengerHuntWithPromiseDotThen h name))) =
        mkObs [[VStr (lit "Oops, there was an error:"); VErr e]]
              (chain_reads h name) [] [] [] fulfilled_undefined true
      /\ observe (run h sched (load (scavengerHuntWithPromiseAsyncAwait h name))) =
        mkObs [[VStr (lit "Oops, There was an error:"); VErr e]]
              (chain_reads h name) [] [] [] fulfilled_undefined true
      /\ observe (run h sched (load (logChainWithDotThen h name))) =
        mkObs [[VStr (lit "Oops, there was an error:"); VErr e]]
              (chain_reads h name) [] [] [] fulfilled_undefined true
      /\ observe (run h sched (load (logChainWithAwait h name))) =
        mkObs [[VStr (lit "Oops, There was an error:"); VErr e]]
              (chain_reads h name) [] [] [] fulfilled_undefined true).
Proof.
  intros Hl.
  assert (L1 : (1 <= length sched)%nat) by lia.
  assert (L2 : (2 <= length sched)%nat) by lia.
  assert (L4 : (4 <= length sched)%nat) by lia.
  rewrite chapter1_run, chapter2_run, chapter2_chained_run,
    scavengerHuntWithCallbacks_run, scavengerHuntWithPromiseDotThen_run,
    scavengerHuntWithPromiseAsyncAwait_run, logChainWithDotThen_run,
    logChainWithAwait_run by assumption.
  unfold read_line, seen, hunt_line, chain_line.
  split; [|split].
  - intros H1. rewrite H1. repeat split.
  - intros Hc Hr. rewrite Hr, Hc. reflexivity.
  - intros Hc. rewrite Hc. repeat split.
Qed.

Lemma read_failures_are_caught_and_printed_witness :
  observe (run demo_host (round_robin 9) (load (logChainWithAwait demo_host (lit "two")))) =
  mkObs [[VStr (lit "Oops, There was an error:"); VErr (ENOENT (lit "treasure"))]]
        [lit "two"; lit "treasure"] [] [] [] fulfilled_undefined true.
Proof.
  pose proof (read_failures_are_caught_and_printed demo_host (lit "two")
                (ENOENT (lit "treasure")) (round_robin 9) (le_n 9)) as H.
  exact (proj2 (proj2 (proj2 (proj2 (proj2 H) eq_refl)))).
Defined.

(** C4 as stated fails: when the request of getCNN_async_await fails, the
    error is caught nowhere.  The promise the call returned stays rejected
    with no handler attached, and no notice is printed. *)
Lemma failed_request_is_not_caught :
  ~ (forall h sched e,
       http_get h cnn = inl e ->
       (2 <= length sched)%nat ->
       unhandled (run h sched (load getCNN_async_await)) = []
       /\ exists prefix,
            In [VStr prefix; VErr e] (logs (run h sched (load getCNN_async_await)))).
Proof.
  intros H.
  destruct (H offline_host (round_robin 2) _ eq_refl (le_n 2)) as [Hu _].
  vm_compute in Hu. discriminate Hu.
Qed.

(** ** The countdowns *)

Lemma logs_timed st : logs st = map snd (timed_logs st).
Proof.
  unfold logs, timed_logs.
  induction (trace st) as [|[t e] l IH]; [reflexivity|].
  cbn [flat_map]. rewrite map_app, IH. destruct e; reflexivity.
Qed.

(** C5 on the code: the three countdowns print at the same four moments,
    2, 4, 6 and 8 seconds after the call, but not the same four messages.
    The callback version ends with "That's it!! Time's up!!" where the other
    two print "That's it! Time's up!!", and the async version has "You'd
    really better hurry!!" where the other two print "You'd better hurry!!". *)
Theorem countdowns_agree_on_delays_not_on_messages h s1 s2 s3 :
  (4 <= length s1)%nat -> (16 <= length s2)%nat -> (8 <= length s3)%nat ->
  let callback := run h s1 (load countDownWithCallback) in
  let dot_then := run h s2 (load countDownWithPromiseDotThen) in
  let async_await := run h s3 (load countDownWithPromiseAsyncAwait) in
  map fst (timed_logs callback) = [2000; 4000; 6000; 8000]
  /\ map fst (timed_logs dot_then) = [2000; 4000; 6000; 8000]
  /\ map fst (timed_logs async_await) = [2000; 4000; 6000; 8000]
  /\ firstn 2 (logs callback) = firstn 2 (logs dot_then)
  /\ firstn 2 (logs dot_then) = firstn 2 (logs async_await)
  /\ nth_error (logs callback) 3 <> nth_error (logs dot_then) 3
  /\ nth_error (logs dot_then) 2 <> nth_error (logs async_await) 2
  /\ logs callback <> logs dot_then
  /\ logs dot_then <> logs async_await
  /\ logs callback <> logs async_await.
Proof.
  intros L1 L2 L3 callback dot_then async_await.
  subst callback dot_then async_await.
  rewrite !logs_timed.
  rewrite (countDownWithCallback_run h s1 L1),
          (countDownWithPromiseDotThen_run h s2 L2),
          (countDownWithPromiseAsyncAwait_run h s3 L3).
  vm_compute. repeat split; discriminate.
Qed.

Lemma countdowns_agree_on_delays_not_on_messages_witness :
  logs (run demo_host (round_robin 4) (load countDownWithCallback)) <>
  logs (run demo_host (round_robin 8) (load countDownWithPromiseAsyncAwait)).
Proof.
  pose proof (countdowns_agree_on_delays_not_on_messages demo_host
                (round_robin 4) (round_robin 16) (round_robin 8)
                (le_n 4) (le_n 16) (le_n 8)) as H.
  exact (proj2 (proj2 (proj2 (proj2 (proj2 (proj2 (proj2 (proj2 (proj2 H))))))))).
Defined.

(** ** The whole file on the example host *)

(** With the two example files in place and the network answering, the
    script comes to rest having printed twenty-four lines, marker 4 among
    them, with no error left over. *)
Lemma script_on_demo_host :
  let st := run demo_host (round_robin 200) (load (script demo_host)) in
  idle st = true
  /\ length (logs st) = 24%nat
  /\ In [VStr (lit "4in do two things after await")] (skipn 3 (logs st))
  /\ uncaught st = [] /\ unhandled st = [].
Proof. vm_compute. intuition. Qed.

(** * Further properties of the script *)

Lemma observe_reads st obs : observe st = obs -> reads st = o_reads obs.
Proof. intros <-. reflexivity. Qed.

(** ** The three reads at the top of the file *)

(** X1: the read with a callback and the two reads through a promise show
    the same thing on every host: the one read of "one", then one line, which
    is the trimmed text of the file or the notice with the error; nothing is
    left uncaught or unhandled. *)
Theorem top_level_reads_agree h sched :
  (4 <= length sched)%nat ->
  observe (run h sched (load (chapter1 h))) =
    mkObs [match fs_read h (lit "one") with
           | inl e => [VStr (lit "Oops, there was an error:"); VErr e]
           | inr d => [VStr (text h d)]
           end] [lit "one"] [] [] [] None true
  /\ observe (run h sched (load (chapter2 h))) = observe (run h sched (load (chapter1 h)))
  /\ observe (run h sched (load (chapter2_chained h))) =
     observe (run h sched (load (chapter1 h))).
Proof.
  intros Hl. assert (L1 : (1 <= length sched)%nat) by lia.
  rewrite chapter1_run, chapter2_run, chapter2_chained_run by assumption.
  unfold read_line, seen. destruct (fs_read h (lit "one")); repeat split.
Qed.

Lemma top_level_reads_agree_witness :
  observe (run demo_host (round_robin 4) (load (chapter2 demo_host))) =
  observe (run demo_host (round_robin 4) (load (chapter1 demo_host))).
Proof.
  exact (proj1 (proj2 (top_level_reads_agree demo_host (round_robin 4) (le_n 4)))).
Defined.

(** ** The hunts compared *)

Lemma chain_refused h name e :
  refused h name = Some e -> chain h name = inl e.
Proof.
  unfold refused, chain.
  destruct (has_nul name) eqn:Hn.
  - intros [= <-]. rewrite (fs_read_refuses h name Hn). reflexivity.
  - destruct (fs_read h name) as [e1|d1]; [discriminate|].
    destruct (has_nul (text h d1)) eqn:Hn2; [|discriminate].
    intros [= <-]. rewrite (fs_read_refuses h _ Hn2). reflexivity.
Qed.

(** X2: scavengerHuntWithCallbacks and scavengerHuntWithPromiseDotThen call
    the read with the same names on every host, and the .then hunt always
    prints its one line and leaves nothing uncaught or unhandled.  Unless a
    name holds a NUL the callback hunt prints the same line.  When the name
    it is given, or the name the first file yields, holds a NUL,
    fs.readFile throws at the call: the callback hunt prints nothing and
    the TypeError is caught by nothing, while the .then hunt prints the
    notice with that same error. *)
Theorem callback_and_then_hunts_compared h fileName1 s1 s2 :
  (2 <= length s1)%nat -> (9 <= length s2)%nat ->
  let callbacks := run h s1 (load (scavengerHuntWithCallbacks h fileName1)) in
  let dot_then := run h s2 (load (scavengerHuntWithPromiseDotThen h fileName1)) in
  reads callbacks = reads dot_then
  /\ uncaught dot_then = [] /\ unhandled dot_then = [] /\ unhandled callbacks = []
  /\ match refused h fileName1 with
     | None => logs callbacks = logs dot_then /\ uncaught callbacks = []
     | Some e =>
         logs callbacks = [] /\ uncaught callbacks = [VErr e]
         /\ logs dot_then = [[VStr (lit "Oops, there was an error:"); VErr e]]
     end.
Proof.
  intros L1 L2 callbacks dot_then. subst callbacks dot_then.
  pose proof (scavengerHuntWithCallbacks_run h fileName1 s1 L1) as E1.
  pose proof (scavengerHuntWithPromiseDotThen_run h fileName1 s2 L2) as E2.
  rewrite (observe_logs _ _ E1), (observe_logs _ _ E2),
          (observe_reads _ _ E1), (observe_reads _ _ E2).
  change (uncaught ?st) with (o_uncaught (observe st)).
  change (unhandled ?st) with (o_unhandled (observe st)).
  rewrite E1, E2. cbn [o_logs o_reads o_uncaught o_unhandled].
  destruct (refused h fileName1) as [e|] eqn:Hr; cbn [o_logs o_reads o_uncaught o_unhandled].
  - unfold hunt_line. rewrite (chain_refused h fileName1 e Hr). repeat split.
  - repeat split.
Qed.

Lemma callback_and_then_hunts_compared_witness :
  let callbacks :=
    run nul_host (round_robin 2) (load (scavengerHuntWithCallbacks nul_host (lit "one"))) in
  let dot_then :=
    run nul_host (round_robin 9) (load (scavengerHuntWithPromiseDotThen nul_host (lit "one"))) in
  logs callbacks = []
  /\ uncaught callbacks = [VErr (invalid_path [97; 0; 98])]
  /\ logs dot_then = [[VStr (lit "Oops, there was an error:"); VErr (invalid_path [97; 0; 98])]].
Proof.
  exact (proj2 (proj2 (proj2 (proj2
    (callback_and_then_hunts_compared nul_host (lit "one")
       (round_robin 2) (round_robin 9) (le_n 2) (le_n 9)))))).
Defined.

(** X3: the async/await versions print what the .then versions print exactly
    when both reads succeed.  When a read fails their notices differ: the
    async/await versions write "Oops, There was an error:" with a capital T,
    the .then versions "Oops, there was an error:". *)
Theorem async_versions_agree_only_on_success h name sched :
  (9 <= length sched)%nat ->
  match chain h name with
  | inr _ =>
      logs (run h sched (load (scavengerHuntWithPromiseAsyncAwait h name))) =
      logs (run h sched (load (scavengerHuntWithPromiseDotThen h name)))
      /\ logs (run h sched (load (logChainWithAwait h name))) =
         logs (run h sched (load (logChainWithDotThen h name)))
  | inl e =>
      logs (run h sched (load (scavengerHuntWithPromiseDotThen h name))) =
        [[VStr (lit "Oops, there was an error:"); VErr e]]
      /\ logs (run h sched (load (scavengerHuntWithPromiseAsyncAwait h name))) =
        [[VStr (lit "Oops, There was an error:"); VErr e]]
      /\ logs (run h sched (load (scavengerHuntWithPromiseAsyncAwait h name))) <>
         logs (run h sched (load (scavengerHuntWithPromiseDotThen h name)))
      /\ logs (run h sched (load (logChainWithAwait h name))) <>
         logs (run h sched (load (logChainWithDotThen h name)))
  end.
Proof.
  intros Hl.
  rewrite (observe_logs _ _ (scavengerHuntWithPromiseAsyncAwait_run h name sched Hl)),
          (observe_logs _ _ (scavengerHuntWithPromiseDotThen_run h name sched Hl)),
          (observe_logs _ _ (logChainWithAwait_run h name sched Hl)),
          (observe_logs _ _ (logChainWithDotThen_run h name sched Hl)).
  cbn [o_logs]. unfold hunt_line, chain_line.
  destruct (chain h name) as [e|[d1 d2]].
  - repeat split; intros H; vm_compute in H; discriminate H.
  - split; reflexivity.
Qed.

Lemma async_versions_agree_only_on_success_witness :
  logs (run broken_host (round_robin 9)
          (load (scavengerHuntWithPromiseAsyncAwait broken_host (lit "one")))) <>
  logs (run broken_host (round_robin 9)
          (load (scavengerHuntWithPromiseDotThen broken_host (lit "one")))).
Proof.
  exact (proj1 (proj2 (proj2
    (async_versions_agree_only_on_success broken_host (lit "one") (round_robin 9) (le_n 9))))).
Defined.

(** X4: a hunt or a logged chain never follows the chain past the second
    file.  It reads the first file and, if that read succeeds, the file
    named by the decoded content less its last code unit, whatever that unit
    is: a name with no line end after it loses its last letter, and an empty
    file leads to a read of the empty name. *)
Theorem hunts_read_at_most_two_files h name sched :
  (9 <= length sched)%nat ->
  let expected :=
    match fs_read h name with
    | inl _ => [name]
    | inr d1 => [name; removelast (buf_toString h d1)]
    end in
  reads (run h sched (load (scavengerHuntWithCallbacks h name))) = expected
  /\ reads (run h sched (load (scavengerHuntWithPromiseDotThen h name))) = expected
  /\ reads (run h sched (load (scavengerHuntWithPromiseAsyncAwait h name))) = expected
  /\ reads (run h sched (load (logChainWithDotThen h name))) = expected
  /\ reads (run h sched (load (logChainWithAwait h name))) = expected.
Proof.
  intros Hl expected. assert (L2 : (2 <= length sched)%nat) by lia.
  assert (He : chain_reads h name = expected).
  { unfold chain_reads, expected, text. destruct (fs_read h name); [reflexivity|].
    rewrite slice_drops_last. reflexivity. }
  rewrite <- He.
  assert (Hcb : reads (run h sched (load (scavengerHuntWithCallbacks h name))) =
                chain_reads h name).
  { rewrite (observe_reads _ _ (scavengerHuntWithCallbacks_run h name sched L2)).
    destruct (refused h name); reflexivity. }
  rewrite Hcb,
          (observe_reads _ _ (scavengerHuntWithPromiseDotThen_run h name sched Hl)),
          (observe_reads _ _ (scavengerHuntWithPromiseAsyncAwait_run h name sched Hl)),
          (observe_reads _ _ (logChainWithDotThen_run h name sched Hl)),
          (observe_reads _ _ (logChainWithAwait_run h name sched Hl)).
  repeat split.
Qed.

Lemma hunts_read_at_most_two_files_witness :
  reads (run bare_host (round_robin 9)
           (load (scavengerHuntWithPromiseDotThen bare_host (lit "one")))) =
  [lit "one"; lit "tw"].
Proof.
  exact (proj1 (proj2
    (hunts_read_at_most_two_files bare_host (lit "one") (round_robin 9) (le_n 9)))).
Defined.

(** X5: until a read completes nothing is printed.  Each statement and
    function that reads files returns at once, having called the read with
    its first name and nothing more, and leaves work waiting.  The one
    exception is scavengerHuntWithCallbacks on a name that holds a NUL: the
    call of fs.readFile throws out of the hunt, which leaves the TypeError
    uncaught and nothing waiting. *)
Theorem reads_are_only_started_by_the_call h name :
  let started m := (logs (load m), reads (load m), uncaught (load m), idle (load m)) in
  started (chapter1 h) = ([], [lit "one"], [], false)
  /\ started (chapter2 h) = ([], [lit "one"], [], false)
  /\ started (chapter2_chained h) = ([], [lit "one"], [], false)
  /\ started (scavengerHuntWithCallbacks h name) =
     ([], [name], if has_nul name then [VErr (invalid_path name)] else [], has_nul name)
  /\ started (scavengerHuntWithPromiseDotThen h name) = ([], [name], [], false)
  /\ started (scavengerHuntWithPromiseAsyncAwait h name) = ([], [name], [], false)
  /\ started (logChainWithDotThen h name) = ([], [name], [], false)
  /\ started (logChainWithAwait h name) = ([], [name], [], false).
Proof.
  cbv zeta. destruct (has_nul name) eqn:Hn; repeat split; js_settle; reflexivity.
Qed.

(** ** The two notations of the request *)

Lemma getCNN_dot_then_run h sched :
  (2 <= length sched)%nat ->
  observe (run h sched (load getCNN_dot_then)) =
  match http_get h cnn with
  | inr _ =>
      mkObs [[VStr (lit "2in do two things before await")];
             [VStr (lit "4in do two things after await")]]
            [] [cnn] [] [] fulfilled_undefined true
  | inl e =>
      mkObs [[VStr (lit "2in do two things before await")]]
            [] [cnn] [] [VErr e] (Some (Settled (Rejected (VErr e)))) true
  end.
Proof.
  intros Hl. destruct (http_get h cnn) as [e|body] eqn:Hnet; js_finish 2%nat Hl.
Qed.

(** X6: getCNN_dot_then, called on its own, shows exactly what
    getCNN_async_await shows, on every host: one request to cnn, the line
    before the wait, and then either the line after it and a promise
    fulfilled with undefined, or, when the request fails, no further line
    and a returned promise rejected with the error and no handler on it. *)
Theorem getCNN_notations_agree h sched :
  (2 <= length sched)%nat ->
  observe (run h sched (load getCNN_dot_then)) =
    observe (run h sched (load getCNN_async_await))
  /\ observe (run h sched (load getCNN_dot_then)) =
     match http_get h cnn with
     | inr _ =>
         mkObs [[VStr (lit "2in do two things before await")];
                [VStr (lit "4in do two things after await")]]
               [] [lit "http://www.cnn.com"] [] [] (Some (Settled (Fulfilled VUndef))) true
     | inl e =>
         mkObs [[VStr (lit "2in do two things before await")]]
               [] [lit "http://www.cnn.com"] [] [VErr e]
               (Some (Settled (Rejected (VErr e)))) true
     end.
Proof.
  intros Hl. rewrite getCNN_dot_then_run, getCNN_async_await_run by assumption.
  split; reflexivity.
Qed.

Lemma getCNN_notations_agree_witness :
  observe (run offline_host (round_robin 2) (load getCNN_dot_then)) =
  observe (run offline_host (round_robin 2) (load getCNN_async_await)).
Proof.
  exact (proj1 (getCNN_notations_agree offline_host (round_robin 2) (le_n 2))).
Defined.

(** ** The template *)

(** X7: newPromise cannot be used as it stands.  Its executor reads the
    name [error], which nothing binds, so on every host a call returns a
    promise already rejected with a ReferenceError; nothing is printed, no
    work is left waiting, and nothing handles the rejection. *)
Theorem newPromise_rejects_at_once h sched :
  observe (run h sched (load newPromise)) =
  let e := VErr (mkError (lit "ReferenceError") (lit "error is not defined")) in
  mkObs [] [] [] [] [e] (Some (Settled (Rejected e))) true.
Proof. rewrite run_idle by reflexivity. reflexivity. Qed.

(** ** The two-second waits *)

(** X8: waitTwoSecondsWithCallback does not run its callback during the
    call: a callback that prints prints nothing at load, and prints once,
    when the clock reads 2000, on the first turn of the loop.
    waitTwoSecondsWithPromise returns a promise that is pending when the
    call returns and is fulfilled with undefined when the clock reads 2000. *)
Theorem waits_fire_once_after_two_seconds h args sched :
  (1 <= length sched)%nat ->
  let callback := waitTwoSecondsWithCallback (console_log args (Ret VUndef)) in
  logs (load callback) = []
  /\ timed_logs (run h sched (load callback)) = [(2000, args)]
  /\ returned (load waitTwoSecondsWithPromise) = Some Pending
  /\ returned (run h sched (load waitTwoSecondsWithPromise)) =
     Some (Settled (Fulfilled VUndef))
  /\ now (run h sched (load waitTwoSecondsWithPromise)) = 2000.
Proof.
  intros Hl callback. subst callback.
  split; [reflexivity|]. split; [js_finish 1%nat Hl|].
  split; [reflexivity|]. split; js_finish 1%nat Hl.
Qed.

Lemma waits_fire_once_after_two_seconds_witness :
  timed_logs (run demo_host (round_robin 1)
                (load (waitTwoSecondsWithCallback
                         (console_log [VStr (lit "late")] (Ret VUndef))))) =
  [(2000, [VStr (lit "late")])].
Proof.
  exact (proj1 (proj2
    (waits_fire_once_after_two_seconds demo_host [VStr (lit "late")]
       (round_robin 1) (le_n 1)))).
Defined.

(** ** The countdowns started together *)

(** X9: started one after the other, as the file starts them, the three
    countdowns run side by side: all twelve messages are out when the clock
    reads 8000, three at each of 2000, 4000, 6000 and 8000, and at each of
    these moments the callback version prints first, the .then version
    second and the async/await version last.  They read no file, send no
    request and leave no error behind. *)
Theorem countdowns_run_side_by_side h sched :
  (28 <= length sched)%nat ->
  timed_logs (run h sched (load countdowns)) =
  [ (2000, [VStr (lit "You have six seconds, starting now!!")]);
    (2000, [VStr (lit "You have six seconds, starting now!!")]);
    (2000, [VStr (lit "You have six seconds, starting now!!")]);
    (4000, [VStr (lit "You have four seconds left.")]);
    (4000, [VStr (lit "You have four seconds left.")]);
    (4000, [VStr (lit "You have four seconds left.")]);
    (6000, [VStr (lit "You have just two seconds left. You'd better hurry!!")]);
    (6000, [VStr (lit "You have just two seconds left. You'd better hurry!!")]);
    (6000, [VStr (lit "You have just two seconds left. You'd really better hurry!!")]);
    (8000, [VStr (lit "That's it!! Time's up!!")]);
    (8000, [VStr (lit "That's it! Time's up!!")]);
    (8000, [VStr (lit "That's it! Time's up!!")]) ]
  /\ reads (run h sched (load countdowns)) = []
  /\ requests (run h sched (load countdowns)) = []
  /\ uncaught (run h sched (load countdowns)) = []
  /\ unhandled (run h sched (load countdowns)) = [].
Proof.
  intros Hl. repeat split; js_finish 28%nat Hl.
Qed.

Lemma countdowns_run_side_by_side_witness :
  unhandled (run demo_host (round_robin 28) (load countdowns)) = [].
Proof.
  exact (proj2 (proj2 (proj2 (proj2
    (countdowns_run_side_by_side demo_host (round_robin 28) (le_n 28)))))).
Defined.

(** ** The promises the other chains return *)

Ltac js_returned h name sched Hl :=
  js_two_reads h name;
    do 9 (destruct sched as [|? sched]; [js_either|]); cbn in Hl; lia.

Lemma scavengerHuntWithPromiseAsyncAwait_returned h fileName1 sched :
  returned (run h sched (load (scavengerHuntWithPromiseAsyncAwait h fileName1))) = Some Pending
  \/ returned (run h sched (load (scavengerHuntWithPromiseAsyncAwait h fileName1))) =
     fulfilled_undefined.
Proof.
  destruct (Nat.le_gt_cases 9 (length sched)) as [Hl|Hl].
  - right.
    exact (f_equal o_returned (scavengerHuntWithPromiseAsyncAwait_run h fileName1 sched Hl)).
  - js_returned h fileName1 sched Hl.
Qed.

Lemma logChainWithDotThen_returned h name1 sched :
  returned (run h sched (load (logChainWithDotThen h name1))) = Some Pending
  \/ returned (run h sched (load (logChainWithDotThen h name1))) = fulfilled_undefined.
Proof.
  destruct (Nat.le_gt_cases 9 (length sched)) as [Hl|Hl].
  - right. exact (f_equal o_returned (logChainWithDotThen_run h name1 sched Hl)).
  - js_returned h name1 sched Hl.
Qed.

Lemma logChainWithAwait_returned h name1 sched :
  returned (run h sched (load (logChainWithAwait h name1))) = Some Pending
  \/ returned (run h sched (load (logChainWithAwait h name1))) = fulfilled_undefined.
Proof.
  destruct (Nat.le_gt_cases 9 (length sched)) as [Hl|Hl].
  - right. exact (f_equal o_returned (logChainWithAwait_run h name1 sched Hl)).
  - js_returned h name1 sched Hl.
Qed.

(** X10: the promises returned by scavengerHuntWithPromiseAsyncAwait,
    logChainWithDotThen and logChainWithAwait behave like the one of
    scavengerHuntWithPromiseDotThen: at every moment of every run each is
    pending or fulfilled with undefined, so a caller chaining on them never
    sees a rejection, also when a read fails; after nine turns each is
    fulfilled with undefined. *)
Theorem chains_never_reject h name any sched :
  (9 <= length sched)%nat ->
  let settled_or_pending m :=
    (returned (run h any (load m)) = Some Pending
     \/ returned (run h any (load m)) = Some (Settled (Fulfilled VUndef)))
    /\ returned (run h sched (load m)) = Some (Settled (Fulfilled VUndef)) in
  settled_or_pending (scavengerHuntWithPromiseAsyncAwait h name)
  /\ settled_or_pending (logChainWithDotThen h name)
  /\ settled_or_pending (logChainWithAwait h name).
Proof.
  intros Hl settled_or_pending. subst settled_or_pending. cbv beta.
  repeat split.
  - apply scavengerHuntWithPromiseAsyncAwait_returned.
  - exact (f_equal o_returned (scavengerHuntWithPromiseAsyncAwait_run h name sched Hl)).
  - apply logChainWithDotThen_returned.
  - exact (f_equal o_returned (logChainWithDotThen_run h name sched Hl)).
  - apply logChainWithAwait_returned.
  - exact (f_equal o_returned (logChainWithAwait_run h name sched Hl)).
Qed.

Lemma chains_never_reject_witness :
  returned (run broken_host (round_robin 9) (load (logChainWithAwait broken_host (lit "one")))) =
  Some (Settled (Fulfilled VUndef)).
Proof.
  exact (proj2 (proj2 (proj2
    (chains_never_reject broken_host (lit "one") [] (round_robin 9) (le_n 9))))).
Defined.

(** ** Two hunts at once *)

Lemma run_settles_on {P : state -> Prop} h n sched st :
  (n <= length sched)%nat ->
  (forall picks, length picks = n ->
     (fun st' => idle st' = true /\ P st') (run h picks st)) ->
  P (run h sched st).
Proof.
  intros Hn Hp.
  rewrite <- (firstn_skipn n sched), run_app.
  assert (Hl : length (firstn n sched) = n) by (rewrite length_firstn; lia).
  destruct (Hp _ Hl) as [Hi HP].
  rewrite run_idle; assumption.
Qed.

Lemma via_state (P : state -> Prop) st st' : st = st' -> P st' -> P st.
Proof. intros ->. exact (fun H => H). Qed.

(** X11: two callback hunts started one after the other run at the same
    time, and the order in which their reads complete is not fixed.  On every
    host and every schedule of at least four turns, provided no name
    involved holds a NUL (so that neither call of fs.readFile throws), both
    finish, each prints its one line, and the two lines come out in one
    order or the other; nothing is left uncaught. *)
Theorem two_hunts_finish_in_either_order h a b sched :
  refused h a = None -> refused h b = None ->
  (4 <= length sched)%nat ->
  let st := run h sched (load (two_hunts h a b)) in
  let line_a := hunt_line (lit "Oops, there was an error:") h a in
  let line_b := hunt_line (lit "Oops, there was an error:") h b in
  (logs st = [line_a; line_b] \/ logs st = [line_b; line_a])
  /\ uncaught st = [] /\ idle st = true.
Proof.
  intros Ha Hb Hl. cbv zeta.
  apply (run_settles_on (P := fun st =>
           (logs st = [hunt_line (lit "Oops, there was an error:") h a;
                       hunt_line (lit "Oops, there was an error:") h b]
            \/ logs st = [hunt_line (lit "Oops, there was an error:") h b;
                          hunt_line (lit "Oops, there was an error:") h a])
           /\ uncaught st = [] /\ idle st = true) h 4%nat); [exact Hl|].
  intros picks Hn. explicit picks Hn.
  revert Ha Hb. unfold refused, hunt_line, chain, text.
  match goal with
  | |- context [run h [?p1; ?p2; ?p3; _] _] =>
      destruct p1 as [|?], p2 as [|?], p3 as [|?]
  end;
    js_two_reads h a; js_two_reads h b;
    intros Ha Hb; try discriminate Ha; try discriminate Hb;
    match goal with |- context [run h ?pk ?s0] => pattern (run h pk s0) end;
    (eapply via_state; [js_run|]); cbv beta;
    (split; [reflexivity|]); (split; [|split; reflexivity]);
    first [left; reflexivity | right; reflexivity].
Qed.

Lemma two_hunts_finish_in_either_order_witness :
  idle (run demo_host (round_robin 4) (load (two_hunts demo_host (lit "one") (lit "two")))) =
  true.
Proof.
  exact (proj2 (proj2
    (two_hunts_finish_in_either_order demo_host (lit "one") (lit "two")
       (round_robin 4) eq_refl eq_refl (le_n 4)))).
Defined.

(** Both orders occur: on the example host the hunt from "one" prints the
    text of "two" and the hunt from "two" prints a notice, and which of the
    two lines comes first depends on the schedule. *)
Lemma two_hunts_both_orders_occur :
  let line_a := hunt_line (lit "Oops, there was an error:") demo_host (lit "one") in
  let line_b := hunt_line (lit "Oops, there was an error:") demo_host (lit "two") in
  line_a <> line_b
  /\ logs (run demo_host [0; 0; 0; 0]%nat (load (two_hunts demo_host (lit "one") (lit "two")))) =
     [line_a; line_b]
  /\ logs (run demo_host [1; 1; 0; 0]%nat (load (two_hunts demo_host (lit "one") (lit "two")))) =
     [line_b; line_a].
Proof. vm_compute. repeat split. discriminate. Qed.
